(** * The monument-guide chatbot (app.py): OTP store and LangGraph workflow

    A shallow embedding of [app.py].  The script keeps one module-level
    dictionary ([otp_store]), one [ChatState] object per browser session
    and talks to four outside services: the spaCy pipeline, the [random]
    module, an SMTP server and the Gemini backend.  The Python code
    mutates its objects in place and lets exceptions unwind the stack, so
    the embedding is a state-and-exception monad in which the state
    survives a raised exception. *)

From Stdlib Require Import ZArith Ascii String List.
From stdpp Require Import base tactics option list strings gmap pretty.

Open Scope string_scope.
Open Scope list_scope.
Open Scope Z_scope.

(** ** Python values *)

(** The exceptions the script can meet.  All of them derive from
    [Exception], so an [except Exception] clause catches every one. *)
Inductive exn :=
| NameError (name : string)
| IndexError
| ValueError
| ServiceError (what : string).

Inductive result (A : Type) :=
| Return (a : A)
| Raise (e : exn).
Arguments Return {A} a.
Arguments Raise {A} e.

Definition returned {A} (r : result A) : bool :=
  match r with Return _ => true | Raise _ => false end.

(** A [doc.ents] entry: the span text and its entity label. *)
Record Ent := { ent_text : string; label_ : string }.

Inductive Role := user | bot.

(** One entry of [ChatState.messages], the dict
    [{"role": ..., "content": ...}]. *)
Record Message := { role : Role; content : string }.

Record ChatState := {
  messages : list Message;
  email : option string;
  otp_verified : bool;
  location : option string
}.

(** An [email.message.EmailMessage], known by the operations of the
    email package that built it: [EmailMessage()], [msg.set_content(text)]
    and [msg[name] = value].  What the package makes of them (the payload
    with its line ending and transfer encoding, the header values as the
    policy parses and folds them) is not modelled. *)
Inductive EmailMessage :=
| NewMessage
| SetContent (msg : EmailMessage) (text : string)
| SetItem (msg : EmailMessage) (name value : string).

(** The calls the script makes on [smtplib] inside its [with] block:
    opening the connection, [server.login], [server.send_message], and
    the closing of the connection when the block is left. *)
Inductive SmtpCall :=
| Connect
| Login (user password : string)
| SendMessage (msg : EmailMessage)
| Quit.

Global Instance Role_eq_dec : EqDecision Role.
Proof. solve_decision. Defined.
Global Instance Message_eq_dec : EqDecision Message.
Proof. solve_decision. Defined.

(** ** The outside world

    [nlp] is the loaded pipeline, a function of the text.
    [header_accepted] says which header values the email policy accepts
    in [msg[name] = value].  The other services answer differently from
    call to call, so they are indexed by the number of calls made before;
    [smtp_call] is indexed by the number of codes drawn so far, one SMTP
    connection at most being opened per code.  [smtp_session] is the
    transport of the specification's stage machine. *)
Record Env := {
  nlp : string → list Ent;
  entropy : nat → Z;
  header_accepted : string → string → bool;
  smtp_call : nat → SmtpCall → option exn;
  smtp_session : nat → EmailMessage → option exn;
  generate_content : nat → string → result string
}.

(** Everything outside the session object: the module-level [otp_store]
    and the record of the calls made to the outside services. *)
Record World := {
  otp_store : gmap string string;
  rand_calls : nat;
  smtp_log : list EmailMessage;
  provider_log : list (option string)
}.

Record St := { chat : ChatState; world : World }.

(** State and exception over a state type [S].  The script's functions
    outside the workflow never see a session object: they run over
    [World] alone ([MW]); the workflow nodes run over the session object
    and the world ([M]). *)
Definition SE (S A : Type) : Type := S → result A * S.

Global Instance SE_ret {S} : MRet (SE S) := λ A a st, (Return a, st).
Global Instance SE_bind {S} : MBind (SE S) := λ A B f m st,
  match m st with
  | (Return a, st') => f a st'
  | (Raise e, st') => (Raise e, st')
  end.

Abbreviation MW := (SE World).
Abbreviation M := (SE St).

Definition raise {S A} (e : exn) : SE S A := λ st, (Raise e, st).
Definition get {S} : SE S S := λ st, (Return st, st).
Definition modify {S} (f : S → S) : SE S unit := λ st, (Return tt, f st).

Definition lift_world {A} (m : MW A) : M A :=
  λ st, let '(r, w) := m (world st) in (r, {| chat := chat st; world := w |}).
Definition get_chat : M ChatState := λ st, (Return (chat st), st).
Definition modify_chat (f : ChatState → ChatState) : M unit :=
  λ st, (Return tt, {| chat := f (chat st); world := world st |}).

(** [try: body except Exception: handler] *)
Definition try_except {S A} (body : SE S A) (handler : exn → SE S A)
  : SE S A :=
  λ st, match body st with
        | (Return a, st') => (Return a, st')
        | (Raise e, st') => handler e st'
        end.

(** [with ctx: body], once the context is entered: [leave] runs whether
    the body raised or not, and an exception of [leave] is the one that
    goes on. *)
Definition with_exit {S A} (body : SE S A) (leave : SE S unit) : SE S A :=
  λ st, match body st with
        | (r, st') =>
            match leave st' with
            | (Return _, st'') => (r, st'')
            | (Raise e, st'') => (Raise e, st'')
            end
        end.

(** [str(n)] for an int, [needle in hay] for two strs, the truth value of
    an [Optional[str]], and its rendering inside an f-string. *)
Definition str (n : Z) : string := pretty n.

Fixpoint py_in (needle hay : string) : bool :=
  String.prefix needle hay ||
  match hay with
  | EmptyString => false
  | String _ hay' => py_in needle hay'
  end.

Definition truthy (o : option string) : bool :=
  match o with
  | Some s => negb (String.eqb s "")
  | None => false
  end.

Definition format (o : option string) : string :=
  match o with Some s => s | None => "None" end.

(** [d.get(k)] on a dict whose keys are strs, asked for an
    [Optional[str]] key: [None] is never a key of [otp_store], which only
    [send_otp] writes, under a str. *)
Definition dict_get (d : gmap string string) (k : option string)
  : option string := k ≫= (λ k', d !! k').

(** [random.randint(a, b)] is [a + randbelow(b - a + 1)]. *)
Definition randbelow (E : Env) (k : nat) (n : Z) : Z := entropy E k `mod` n.

Section App.

Variable G : gmap string string.
Variable E : Env.

Definition load_global (name : string) : MW string :=
  match G !! name with
  | Some v => mret v
  | None => raise (NameError name)
  end.

Definition randint (a b : Z) : MW Z :=
  w ← get;
  modify (λ w, {| otp_store := otp_store w;
                  rand_calls := S (rand_calls w);
                  smtp_log := smtp_log w;
                  provider_log := provider_log w |});;
  mret (a + randbelow E (rand_calls w) (b - a + 1)).

Definition otp_store_set (k v : string) : MW unit :=
  modify (λ w, {| otp_store := <[k := v]> (otp_store w);
                  rand_calls := rand_calls w;
                  smtp_log := smtp_log w;
                  provider_log := provider_log w |}).

(** [msg[name] = value] with a value known only at run time: the email
    policy checks it and may raise. *)
Definition set_header (msg : EmailMessage) (name value : string)
  : MW EmailMessage :=
  if header_accepted E name value
  then mret (SetItem msg name value)
  else raise ValueError.

(** One call on [smtplib], which succeeds or raises. *)
Definition smtp (call : SmtpCall) : MW unit :=
  w ← get;
  match smtp_call E (rand_calls w) call with
  | None => mret tt
  | Some e => raise e
  end.

(** [server.send_message(msg)]: the message is handed to the server,
    which is what [smtp_log] records, and the call succeeds or raises. *)
Definition send_message (msg : EmailMessage) : MW unit :=
  modify (λ w, {| otp_store := otp_store w;
                  rand_calls := rand_calls w;
                  smtp_log := smtp_log w ++ [msg];
                  provider_log := provider_log w |});;
  smtp (SendMessage msg).

(** [with smtplib.SMTP_SSL(...) as server: body]: the connection is
    opened; if that succeeds the body runs and the connection is closed
    whether the body raised or not. *)
Definition with_smtp_ssl (block : MW unit) : MW unit :=
  smtp Connect;; with_exit block (smtp Quit).

(** The [with] block of [send_otp]: the arguments of [login] are looked
    up, then login, then the message is sent. *)
Definition smtp_deliver (msg : EmailMessage) : MW unit :=
  with_smtp_ssl
    (sender ← load_global "EMAIL_ADDRESS";
     password ← load_global "EMAIL_PASSWORD";
     smtp (Login sender password);;
     send_message msg).

(** *** Location extractor *)

(** [locations[0]]; the index raises on an empty list. *)
Definition index0 {A} (l : list A) : MW A :=
  match l with
  | x :: _ => mret x
  | [] => raise IndexError
  end.

Definition extract_location (user_input : string) : MW (option string) :=
  let doc_ents := nlp E user_input in
  let locations :=
    ent_text <$> filter (λ ent, label_ ent = "GPE") doc_ents in
  if bool_decide (locations ≠ [])
  then x ← index0 locations; mret (Some x)
  else mret None.

(** *** OTP authenticator *)

(** The subject is a literal without a line break, which the policy
    accepts; the sender and the recipient are checked. *)
Definition send_otp (email : string) : MW bool :=
  n ← randint 100000 999999;
  let otp := str n in
  otp_store_set email otp;;
  let msg := NewMessage in
  let msg := SetContent msg ("Your OTP for verification is: " +:+ otp) in
  let msg := SetItem msg "Subject" "Your OTP Code" in
  sender ← load_global "EMAIL_ADDRESS";
  msg ← set_header msg "From" sender;
  msg ← set_header msg "To" email;
  try_except (smtp_deliver msg;; mret true) (λ _, mret false).

Definition verify_otp (email : option string) (entered_otp : string)
  : MW bool :=
  w ← get;
  mret (bool_decide (dict_get (otp_store w) email = Some entered_otp)).

(** *** Monument info provider *)

Definition get_monument_info (location : option string) : MW string :=
  let prompt := "Tell me about the top historical monuments in "
                +:+ format location +:+ " with their significance." in
  w ← get;
  modify (λ w, {| otp_store := otp_store w;
                  rand_calls := rand_calls w;
                  smtp_log := smtp_log w;
                  provider_log := provider_log w ++ [location] |});;
  match generate_content E (length (provider_log w)) prompt with
  | Return text => mret text
  | Raise e => raise e
  end.

(** *** The five workflow nodes *)

Definition append_message (m : Message) : M unit :=
  modify_chat (λ c, {| messages := messages c ++ [m];
                       email := email c;
                       otp_verified := otp_verified c;
                       location := location c |}).

(** [state.messages[-1]["content"]] *)
Definition last_content : M string :=
  c ← get_chat;
  match last (messages c) with
  | Some m => mret (content m)
  | None => raise IndexError
  end.

Definition greeting : string :=
  "Hello! I'm your historical monument guide. Where are you traveling?".

Definition greet_user : M unit :=
  append_message {| role := bot; content := greeting |}.

Definition get_location : M unit :=
  user_input ← last_content;
  loc ← lift_world (extract_location user_input);
  if truthy loc then
    modify_chat (λ c, {| messages := messages c;
                         email := email c;
                         otp_verified := otp_verified c;
                         location := loc |});;
    append_message {| role := bot;
                      content := "Got it! You are interested in "
                                 +:+ format loc
                                 +:+ ". Can I have your email for verification?" |}
  else
    append_message {| role := bot;
                      content := "I couldn't detect a location. Can you mention it explicitly?" |}.

Definition request_email : M unit :=
  user_input ← last_content;
  if py_in "@" user_input then
    modify_chat (λ c, {| messages := messages c;
                         email := Some user_input;
                         otp_verified := otp_verified c;
                         location := location c |});;
    success ← lift_world (send_otp user_input);
    if success : bool then
      append_message {| role := bot;
                        content := "OTP sent to your email. Please enter the OTP." |}
    else
      append_message {| role := bot;
                        content := "Failed to send OTP. Try again." |}
  else
    append_message {| role := bot;
                      content := "Please enter a valid email address." |}.

Definition verify_user_otp : M unit :=
  user_input ← last_content;
  c ← get_chat;
  ok ← lift_world (verify_otp (email c) user_input);
  if ok : bool then
    modify_chat (λ c, {| messages := messages c;
                         email := email c;
                         otp_verified := true;
                         location := location c |});;
    append_message {| role := bot;
                      content := "OTP verified successfully! Fetching historical information..." |}
  else
    append_message {| role := bot; content := "Invalid OTP. Try again." |}.

Definition provide_info : M unit :=
  c ← get_chat;
  if otp_verified c then
    monument_info ← lift_world (get_monument_info (location c));
    append_message {| role := bot; content := monument_info |}
  else
    append_message {| role := bot;
                      content := "OTP not verified. Cannot proceed." |}.

(** *** The graph

    [StateGraph] as the script uses it: named nodes, directed edges and
    an entry point.  [invoke] starts at the entry point and follows the
    edge leaving each node until a node has none. *)
Record StateGraph := {
  nodes : list (string * M unit);
  edges : list (string * string);
  entry_point : option string
}.

Definition empty_graph : StateGraph :=
  {| nodes := []; edges := []; entry_point := None |}.
Definition add_node (name : string) (f : M unit) (g : StateGraph) :=
  {| nodes := nodes g ++ [(name, f)];
     edges := edges g; entry_point := entry_point g |}.
Definition add_edge (src dst : string) (g : StateGraph) :=
  {| nodes := nodes g; edges := edges g ++ [(src, dst)];
     entry_point := entry_point g |}.
Definition set_entry_point (name : string) (g : StateGraph) :=
  {| nodes := nodes g; edges := edges g; entry_point := Some name |}.

Definition assoc {A} (k : string) (l : list (string * A)) : option A :=
  snd <$> find (λ p, String.eqb (fst p) k) l.

Definition workflow : StateGraph :=
  add_edge "verify_otp" "provide_info"
  (add_edge "request_email" "verify_otp"
  (add_edge "extract_location" "request_email"
  (add_edge "greet" "extract_location"
  (set_entry_point "greet"
  (add_node "provide_info" provide_info
  (add_node "verify_otp" verify_user_otp
  (add_node "request_email" request_email
  (add_node "extract_location" get_location
  (add_node "greet" greet_user empty_graph))))))))).

Fixpoint run_from (g : StateGraph) (fuel : nat) (name : string) : M unit :=
  match fuel with
  | O => mret tt
  | S fuel' =>
      match assoc name (nodes g) with
      | None => raise ValueError
      | Some f =>
          f;;
          match assoc name (edges g) with
          | Some next => run_from g fuel' next
          | None => mret tt
          end
      end
  end.

Definition invoke (g : StateGraph) : M unit :=
  match entry_point g with
  | Some name => run_from g (length (nodes g)) name
  | None => raise ValueError
  end.

Definition graph : StateGraph := workflow.

(** The nodes [invoke] enters, each with the state it is entered in: the
    walk of [run_from], stopping at the node that raises. *)
Fixpoint trace_from (g : StateGraph) (fuel : nat) (name : string) (st : St)
  : list (string * St) :=
  match fuel with
  | O => []
  | S fuel' =>
      match assoc name (nodes g) with
      | None => []
      | Some f =>
          (name, st) ::
          match f st, assoc name (edges g) with
          | (Return _, st'), Some next => trace_from g fuel' next st'
          | _, _ => []
          end
      end
  end.

Definition invoke_trace (g : StateGraph) (st : St) : list (string * St) :=
  match entry_point g with
  | Some name => trace_from g (length (nodes g)) name st
  | None => []
  end.

(** *** Session host

    Lines 154 and 157 while the session object is the [ChatState]
    instance: the user's line is appended to its message list and the
    graph is invoked on it. *)
Definition process_message (user_input : string) : M unit :=
  append_message {| role := user; content := user_input |};;
  invoke graph.

End App.

(** ** The module as loaded

    The three configuration values the script reads from [st.secrets],
    under the names it binds them to.  These are the only module-level
    names bound to strs. *)
Record Secrets := {
  secret_GEMINI_API_KEY : string;
  secret_EMAIL_ADDRESS : string;
  secret_EMAIL_PASSWORD : string
}.

Definition module_globals (s : Secrets) : gmap string string :=
  {[ "GEMINI_API_KEY" := secret_GEMINI_API_KEY s;
     "EMAIL_SENDER" := secret_EMAIL_ADDRESS s;
     "EMAIL_PASSWORD" := secret_EMAIL_PASSWORD s ]}.

(** [ChatState(messages=[])], the object the script puts in
    [st.session_state["state"]] when the key is absent. *)
Definition new_chat : ChatState :=
  {| messages := []; email := None; otp_verified := false; location := None |}.

Definition fresh_session (w : World) : St := {| chat := new_chat; world := w |}.

(** ** The session object across script runs

    What [st.session_state["state"]] holds.  It starts as the [ChatState]
    instance of line 145.  [graph.invoke] does not return that instance:
    it returns a dict of the state values, and line 160 stores the dict.
    The dict has no attribute [messages], so line 164 gives it one, an
    empty list, which is a different list from the one under its key
    "messages".  From then on line 154 appends the user's message to the
    attribute, the graph reads and extends the list under the key, and
    the display loop reads the attribute.

    [held] is what an invocation of the graph on the object reads: the
    message list the nodes extend, the three other values, and the
    outside world.  [attr] is the attribute [messages] of a stored dict,
    and [None] while the object is the instance, whose attribute is the
    message list itself. *)
Record Session := {
  held : St;
  attr : option (list Message)
}.

(** The list [.messages] of the session object, which line 154 appends to
    and the display loop iterates. *)
Definition attr_messages (s : Session) : list Message :=
  match attr s with
  | Some l => l
  | None => messages (chat (held s))
  end.

(** An invocation that raises leaves the session object in place.  The
    nodes work on objects built from the state values, which share the
    message list with the session object: what they appended to the list
    stays, what they assigned to the other fields is lost with the
    invocation.  The outside world keeps what was done to it. *)
Definition unwound (st st' : St) : St :=
  {| chat := {| messages := messages (chat st');
                email := email (chat st);
                otp_verified := otp_verified (chat st);
                location := location (chat st) |};
     world := world st' |}.

(** What happens to a session between two renderings: the user submits a
    line, which lines 151 to 164 handle (an exception ends that script
    run at line 157), or the script is executed again from its first
    line, which rebinds [otp_store] to an empty dict.  The host executes
    the script again for every submitted line, so that in a browser
    session every [UserLine] follows a [ScriptReload]: [script_run] below
    is that pair, with the display loop. *)
Inductive Event :=
| UserLine (text : string)
| ScriptReload.

Definition reload (st : St) : St :=
  {| chat := chat st;
     world := {| otp_store := ∅;
                 rand_calls := rand_calls (world st);
                 smtp_log := smtp_log (world st);
                 provider_log := provider_log (world st) |} |}.

(** Lines 151 to 164 on the session object [s]. *)
Definition submit (G : gmap string string) (E : Env)
    (user_input : string) (s : Session) : result unit * Session :=
  match attr s with
  | None =>
      match process_message G E user_input (held s) with
      | (Return _, st') => (Return tt, {| held := st'; attr := Some [] |})
      | (Raise e, st') =>
          (Raise e, {| held := unwound (held s) st'; attr := None |})
      end
  | Some l =>
      match invoke (graph G E) (held s) with
      | (Return _, st') => (Return tt, {| held := st'; attr := Some [] |})
      | (Raise e, st') =>
          (Raise e,
           {| held := unwound (held s) st';
              attr := Some (l ++ [ {| role := user; content := user_input |} ]) |})
      end
  end.

Definition session_step (G : gmap string string) (E : Env)
    (ev : Event) (s : Session) : result unit * Session :=
  match ev with
  | UserLine text => submit G E text s
  | ScriptReload => (Return tt, {| held := reload (held s); attr := attr s |})
  end.

Fixpoint session_loop (G : gmap string string) (E : Env)
    (evs : list Event) (s : Session) : Session :=
  match evs with
  | [] => s
  | ev :: evs' => session_loop G E evs' (session_step G E ev s).2
  end.

(** Whether every script run of the session ended without an exception. *)
Fixpoint session_loop_completes (G : gmap string string) (E : Env)
    (evs : list Event) (s : Session) : bool :=
  match evs with
  | [] => true
  | ev :: evs' =>
      returned (session_step G E ev s).1
      && session_loop_completes G E evs' (session_step G E ev s).2
  end.

(** A session that starts with the [ChatState] instance [chat st] in the
    world [world st]: what the session object holds after the events. *)
Definition instance (st : St) : Session := {| held := st; attr := None |}.

Definition session_run (G : gmap string string) (E : Env)
    (evs : list Event) (st : St) : St :=
  held (session_loop G E evs (instance st)).

Definition session_completes (G : gmap string string) (E : Env)
    (evs : list Event) (st : St) : bool :=
  session_loop_completes G E evs (instance st).

Definition user_lines (evs : list Event) : list string :=
  omap (λ ev, match ev with UserLine t => Some t | ScriptReload => None end) evs.

Definition transcript (st : St) : list Message := messages (chat st).

(** ** The stage machine of the specification

    The reimplementation the specification asks for (its section 4.4),
    written from the specification's table and not from [app.py]: the
    session carries an explicit stage, and each user message is handed to
    the one handler of that stage, which appends one bot message.  It
    shares the outside world and the wording of the replies with the
    script, so that the two transcripts can be compared. *)
Module StageMachine.

Inductive Stage := GREET | AWAIT_LOCATION | AWAIT_EMAIL | AWAIT_OTP | PROVIDE_INFO.

Record Session := {
  log : list Message;
  address : option string;
  otpVerified : bool;
  place : option string;
  stage : Stage
}.

Record SSt := { session : Session; shared : World }.

Definition say (text : string) (next : Stage) (s : Session) : Session :=
  {| log := log s ++ [ {| role := bot; content := text |} ];
     address := address s; otpVerified := otpVerified s;
     place := place s; stage := next |}.

(** Section 4.1: the first geopolitical entity, or none. *)
Definition extract (E : Env) (text : string) : option string :=
  head (ent_text <$> filter (λ ent, label_ ent = "GPE") (nlp E text)).

(** Section 4.2, send: a code in 100000..999999 is stored under the
    address, then delivery is attempted once; a transport error becomes
    the answer [false]. *)
Definition send (E : Env) (addr : string) (w : World) : bool * World :=
  let code := str (100000 + randbelow E (rand_calls w) 900000) in
  let msg := SetItem
               (SetItem
                  (SetContent NewMessage
                     ("Your OTP for verification is: " +:+ code))
                  "Subject" "Your OTP Code")
               "To" addr in
  (match smtp_session E (length (smtp_log w)) msg with
   | None => true
   | Some _ => false
   end,
   {| otp_store := <[addr := code]> (otp_store w);
      rand_calls := S (rand_calls w);
      smtp_log := smtp_log w ++ [msg];
      provider_log := provider_log w |}).

(** Section 4.2, verify. *)
Definition verify (addr candidate : string) (w : World) : bool :=
  bool_decide (otp_store w !! addr = Some candidate).

(** Section 4.3, with the conversion of a backend failure into a chat
    line that section 7 recommends. *)
Definition describe (E : Env) (loc : string) (w : World) : string * World :=
  let prompt := "Tell me about the top historical monuments in "
                +:+ loc +:+ " with their significance." in
  (match generate_content E (length (provider_log w)) prompt with
   | Return text => text
   | Raise _ => "Sorry, the information could not be fetched."
   end,
   {| otp_store := otp_store w; rand_calls := rand_calls w;
      smtp_log := smtp_log w;
      provider_log := provider_log w ++ [Some loc] |}).

(** The table of section 4.4, one row per stage. *)
Definition dispatch (E : Env) (text : string) (st : SSt) : SSt :=
  let s := session st in
  let w := shared st in
  match stage s with
  | GREET =>
      {| session := say greeting AWAIT_LOCATION s; shared := w |}
  | AWAIT_LOCATION =>
      match extract E text with
      | Some loc =>
          {| session :=
               say ("Got it! You are interested in " +:+ loc
                    +:+ ". Can I have your email for verification?")
                   AWAIT_EMAIL
                   {| log := log s; address := address s;
                      otpVerified := otpVerified s;
                      place := Some loc; stage := stage s |};
             shared := w |}
      | None =>
          {| session :=
               say "I couldn't detect a location. Can you mention it explicitly?"
                   AWAIT_LOCATION s;
             shared := w |}
      end
  | AWAIT_EMAIL =>
      if py_in "@" text then
        let '(ok, w') := send E text w in
        {| session :=
             say (if ok then "OTP sent to your email. Please enter the OTP."
                  else "Failed to send OTP. Try again.")
                 AWAIT_OTP
                 {| log := log s; address := Some text;
                    otpVerified := otpVerified s;
                    place := place s; stage := stage s |};
           shared := w' |}
      else
        {| session := say "Please enter a valid email address." AWAIT_EMAIL s;
           shared := w |}
  | AWAIT_OTP =>
      if from_option (λ addr, verify addr text w) false (address s) then
        {| session :=
             say "OTP verified successfully! Fetching historical information..."
                 PROVIDE_INFO
                 {| log := log s; address := address s;
                    otpVerified := true;
                    place := place s; stage := stage s |};
           shared := w |}
      else
        {| session := say "Invalid OTP. Try again." AWAIT_OTP s; shared := w |}
  | PROVIDE_INFO =>
      match place s with
      | Some loc =>
          let '(text', w') := describe E loc w in
          {| session := say text' PROVIDE_INFO s; shared := w' |}
      | None =>
          (* not reachable: the stage is entered with a place stored *)
          {| session :=
               say "I couldn't detect a location. Can you mention it explicitly?"
                   AWAIT_LOCATION s;
             shared := w |}
      end
  end.

(** Section 4.5: the host appends the user's line and invokes the machine
    once. *)
Definition handle_message (E : Env) (text : string) (st : SSt) : SSt :=
  dispatch E text
    {| session := {| log := log (session st) ++ [ {| role := user; content := text |} ];
                     address := address (session st);
                     otpVerified := otpVerified (session st);
                     place := place (session st);
                     stage := stage (session st) |};
       shared := shared st |}.

Definition fresh_session (w : World) : SSt :=
  {| session := {| log := []; address := None; otpVerified := false;
                   place := None; stage := GREET |};
     shared := w |}.

Definition session_run (E : Env) (lines : list string) (st : SSt) : SSt :=
  foldl (λ st text, handle_message E text st) st lines.

Definition transcript (st : SSt) : list Message := log (session st).

End StageMachine.

(** ** Vocabulary of the statements *)

Definition is_digit (c : ascii) : bool :=
  (48 <=? nat_of_ascii c)%nat && (nat_of_ascii c <=? 57)%nat.

Fixpoint numeric (s : string) : bool :=
  match s with
  | EmptyString => true
  | String c s' => is_digit c && numeric s'
  end.

(** The code drawn by the send that makes draw number [k]. *)
Definition code_at (E : Env) (k : nat) : string :=
  str (100000 + randbelow E k 900000).

(** The same outside world with another source of random draws. *)
Definition with_entropy (draw : nat → Z) (E : Env) : Env :=
  {| nlp := nlp E;
     entropy := draw;
     header_accepted := header_accepted E;
     smtp_call := smtp_call E;
     smtp_session := smtp_session E;
     generate_content := generate_content E |}.

(** The message [send_otp] builds for a code, a sender and a recipient. *)
Definition otp_message (code sender email : string) : EmailMessage :=
  SetItem
    (SetItem
       (SetItem
          (SetContent NewMessage ("Your OTP for verification is: " +:+ code))
          "Subject" "Your OTP Code")
       "From" sender)
    "To" email.

(** Whether the [with] block entered after draw number [k - 1] reaches
    [send_message]: the connection opens, both credentials are bound and
    login succeeds.  And whether it ends without an exception. *)
Definition handed_over (G : gmap string string) (E : Env) (k : nat) : bool :=
  match smtp_call E k Connect, G !! "EMAIL_ADDRESS", G !! "EMAIL_PASSWORD" with
  | None, Some sender, Some password =>
      match smtp_call E k (Login sender password) with
      | None => true
      | Some _ => false
      end
  | _, _, _ => false
  end.

Definition delivered (G : gmap string string) (E : Env) (k : nat)
    (msg : EmailMessage) : bool :=
  match smtp_call E k Connect with
  | Some _ => false
  | None =>
      match smtp_call E k Quit with
      | Some _ => false
      | None =>
          handed_over G E k
          && match smtp_call E k (SendMessage msg) with
             | None => true
             | Some _ => false
             end
      end
  end.

(** A caller that sends to each address in turn and goes on whatever the
    outcome of a send. *)
Fixpoint send_all (G : gmap string string) (E : Env)
    (emails : list string) (w : World) : World :=
  match emails with
  | [] => w
  | e :: emails' => send_all G E emails' (send_otp G E e w).2
  end.

Definition is_gpe (ent : Ent) : Prop := label_ ent = "GPE".

Definition user_msg (text : string) : Message :=
  {| role := user; content := text |}.
Definition bot_msg (text : string) : Message :=
  {| role := bot; content := text |}.

(** The session object after [state.messages.append(m)], and after an
    assignment to one of its other fields or to the world. *)
Definition push (m : Message) (st : St) : St :=
  {| chat := {| messages := messages (chat st) ++ [m];
                email := email (chat st);
                otp_verified := otp_verified (chat st);
                location := location (chat st) |};
     world := world st |}.
Definition with_location (loc : option string) (st : St) : St :=
  {| chat := {| messages := messages (chat st);
                email := email (chat st);
                otp_verified := otp_verified (chat st);
                location := loc |};
     world := world st |}.
Definition with_email (e : string) (st : St) : St :=
  {| chat := {| messages := messages (chat st);
                email := Some e;
                otp_verified := otp_verified (chat st);
                location := location (chat st) |};
     world := world st |}.
Definition with_verified (st : St) : St :=
  {| chat := {| messages := messages (chat st);
                email := email (chat st);
                otp_verified := true;
                location := location (chat st) |};
     world := world st |}.
Definition with_world (w : World) (st : St) : St :=
  {| chat := chat st; world := w |}.

(** The value [extract_location] computes. *)
Definition first_gpe (E : Env) (text : string) : option string :=
  head (ent_text <$> filter (λ ent, label_ ent = "GPE") (nlp E text)).

(** What a node does to the message list: a node that returns has
    appended one bot message, a node that raises has appended none. *)
Definition node_effect (st : St) (r : result unit) (st' : St) : Prop :=
  match r with
  | Return _ => ∃ b, messages (chat st') = messages (chat st) ++ [b]
                     ∧ role b = bot
  | Raise _ => messages (chat st') = messages (chat st)
  end.

(** The five nodes in the order of the edges. *)
Definition chain (G : gmap string string) (E : Env) : M unit :=
  greet_user;; get_location E;; request_email G E;; verify_user_otp;;
  provide_info E.

(** Every stored code has six characters. *)
Definition codes_wf (d : gmap string string) : Prop :=
  map_Forall (λ _ code, String.length code = 6%nat) d.

(** A verified session has a usable location. *)
Definition provider_safe (c : ChatState) : Prop :=
  otp_verified c = true → truthy (location c) = true.

(** What holds of a session state [s] reached from [st0]: the flag is
    what it was, the location is what it was or a usable value the
    extractor returned, and every provider call made since [st0] was made
    in a verified session with a usable location. *)
Definition session_inv (E : Env) (st0 s : St) : Prop :=
  otp_verified (chat s) = otp_verified (chat st0)
  ∧ codes_wf (otp_store (world s))
  ∧ provider_safe (chat s)
  ∧ (location (chat s) = location (chat st0)
     ∨ ∃ text, location (chat s) = first_gpe E text
               ∧ truthy (location (chat s)) = true)
  ∧ ∃ calls, provider_log (world s) = provider_log (world st0) ++ calls
             ∧ Forall (λ loc, truthy loc = true) calls
             ∧ (calls ≠ [] → otp_verified (chat st0) = true).

(** [state.messages[-1]], the message a node reads when it is entered in
    state [st]. *)
Definition node_input (st : St) : option Message := last (messages (chat st)).

(** [s2] is [s1] with one bot message appended, which is what a node
    entered in [s2] reads. *)
Definition appended_reply (s1 s2 : St) : Prop :=
  ∃ b, messages (chat s2) = messages (chat s1) ++ [b]
       ∧ role b = bot ∧ node_input s2 = Some b.

(** Every node of a trace but the first is entered right after the reply
    of the node before it. *)
Fixpoint linked (tr : list (string * St)) : Prop :=
  match tr with
  | p1 :: rest =>
      match rest with
      | p2 :: _ => appended_reply p1.2 p2.2 ∧ linked rest
      | [] => True
      end
  | [] => True
  end.

(** The session with its first [n] messages replaced by [pre]. *)
Definition graft (pre : list Message) (n : nat) (st : St) : St :=
  {| chat := {| messages := pre ++ drop n (messages (chat st));
                email := email (chat st);
                otp_verified := otp_verified (chat st);
                location := location (chat st) |};
     world := world st |}.

(** ** A sample world, for the concrete runs *)

Definition sample_nlp (text : string) : list Ent :=
  if py_in "Paris" text
  then [ {| ent_text := "Paris"; label_ := "GPE" |} ]
  else [].

Definition sample_env : Env :=
  {| nlp := sample_nlp;
     entropy := λ k, 23456 + Z.of_nat k;
     header_accepted := λ _ _, true;
     smtp_call := λ _ _, None;
     smtp_session := λ _ _, None;
     generate_content := λ _ prompt, Return ("About: " +:+ prompt) |}.

Definition sample_secrets : Secrets :=
  {| secret_GEMINI_API_KEY := "key";
     secret_EMAIL_ADDRESS := "guide@example.org";
     secret_EMAIL_PASSWORD := "password" |}.

Definition empty_world : World :=
  {| otp_store := ∅; rand_calls := 0; smtp_log := []; provider_log := [] |}.

(** A session that is already verified and has a location. *)
Definition verified_session : St :=
  {| chat := {| messages := []; email := Some "a@b.com";
                otp_verified := true; location := Some "Paris" |};
     world := empty_world |}.

(** ** The rest of the script: display loop and one script execution *)

(** The two prefixes of the display loop, byte for byte as the source
    file has them. *)
Definition bot_prefix : string := "ü§ñ: ".
Definition user_prefix : string := "üßë: ".

(** One turn of the [for msg in ...] loop: the line handed to
    [st.write]. *)
Definition render_message (msg : Message) : string :=
  match role msg with
  | bot => bot_prefix +:+ content msg
  | user => user_prefix +:+ content msg
  end.


(** What survives from one execution of the script to the next:
    [st.session_state], which holds the session object under the key
    "state" or nothing yet, and the outside world.  [session_state] is
    the values of the object, [session_attr] its attribute [messages]
    when the object is a dict [graph.invoke] returned. *)
Record Host := {
  session_state : option ChatState;
  session_attr : option (list Message);
  host_world : World
}.

Definition host_of (s : Session) : Host :=
  {| session_state := Some (chat (held s));
     session_attr := attr s;
     host_world := world (held s) |}.

(** One execution of the script from its first line to its last, with
    [user_input] the value of the text box: [otp_store] is bound to an
    empty dict, the session object is created if the key is absent, a
    non-empty line is processed, and the list [.messages] of the session
    object is displayed.  An exception ends the execution before the
    display loop. *)
Definition script_run (G : gmap string string) (E : Env)
    (user_input : string) (h : Host) : result (list string) * Host :=
  let w := {| otp_store := ∅;
              rand_calls := rand_calls (host_world h);
              smtp_log := smtp_log (host_world h);
              provider_log := provider_log (host_world h) |} in
  let c := match session_state h with
           | Some c => c
           | None => new_chat
           end in
  let s := {| held := {| chat := c; world := w |}; attr := session_attr h |} in
  if String.eqb user_input "" then
    (Return (render_message <$> attr_messages s), host_of s)
  else
    match submit G E user_input s with
    | (Return _, s') => (Return (render_message <$> attr_messages s'), host_of s')
    | (Raise e, s') => (Raise e, host_of s')
    end.

(** A browser session: the script is executed once per value of the text
    box, starting with no session object. *)
Fixpoint script_runs (G : gmap string string) (E : Env)
    (inputs : list string) (h : Host) : Host :=
  match inputs with
  | [] => h
  | input :: inputs' => script_runs G E inputs' (script_run G E input h).2
  end.

Definition initial_host (w : World) : Host :=
  {| session_state := None; session_attr := None; host_world := w |}.

(** ** Vocabulary of the further statements *)

(** The reply [get_location] gives when the message it reads is [text]. *)
Definition location_reply (E : Env) (text : string) : Message :=
  if truthy (first_gpe E text)
  then bot_msg ("Got it! You are interested in "
                +:+ format (first_gpe E text)
                +:+ ". Can I have your email for verification?")
  else bot_msg "I couldn't detect a location. Can you mention it explicitly?".

(** The five replies of an invocation that sends nothing and is not
    verified. *)
Definition stock_replies (E : Env) : list Message :=
  [ bot_msg greeting;
    location_reply E greeting;
    bot_msg "Please enter a valid email address.";
    bot_msg "Invalid OTP. Try again.";
    bot_msg "OTP not verified. Cannot proceed." ].

(** Whether [request_email] raises in an invocation.  The message it
    reads is the reply [get_location] gave to the greeting, so this
    depends on the module globals and the outside services only, not on
    the session or on the user's line: an "@" in that reply makes it the
    address, and [send_otp] raises on an unbound sender or a rejected
    header. *)
Definition email_step_raises (G : gmap string string) (E : Env) : bool :=
  let text := content (location_reply E greeting) in
  py_in "@" text
  && match G !! "EMAIL_ADDRESS" with
     | None => true
     | Some sender =>
         negb (header_accepted E "From" sender && header_accepted E "To" text)
     end.

(** Nothing the session has acquired is lost between [st] and [st']. *)
Definition kept (st st' : St) : Prop :=
  messages (chat st) `prefix_of` messages (chat st')
  ∧ (otp_verified (chat st) = true → otp_verified (chat st') = true)
  ∧ (is_Some (email (chat st)) → is_Some (email (chat st')))
  ∧ (truthy (location (chat st)) = true
     → truthy (location (chat st')) = true).

(** A stored code as [send_otp] writes it. *)
Definition code_ok (code : string) : Prop :=
  String.length code = 6%nat ∧ numeric code = true.

(** A world whose backend always fails. *)
Definition failing_backend_env : Env :=
  {| nlp := sample_nlp;
     entropy := λ k, 23456 + Z.of_nat k;
     header_accepted := λ _ _, true;
     smtp_call := λ _ _, None;
     smtp_session := λ _ _, None;
     generate_content := λ _ _, Raise (ServiceError "backend") |}.

(** * Properties *)

(** ** Decimal rendering of a six-digit integer *)

Lemma pretty_N_char_digit (x : N) : is_digit (pretty_N_char x) = true.
Proof. unfold pretty_N_char. repeat case_match; reflexivity. Qed.

Lemma str_pos (n : Z) : 0 < n → str n = pretty_N_go (Z.to_N n) "".
Proof.
  intros Hn. destruct n as [|p|p]; try lia.
  unfold str, pretty, pretty_Z, pretty, pretty_positive, pretty, pretty_N.
  by case_decide.
Qed.

Lemma pretty_N_go_numeric (x : N) (s : string) :
  numeric s = true → numeric (pretty_N_go x s) = true.
Proof.
  revert s. induction (N.lt_wf_0 x) as [x _ IH]; intros s Hs.
  destruct (decide (x = 0%N)) as [->|Hx]; [by rewrite pretty_N_go_0|].
  rewrite pretty_N_go_step by lia.
  apply IH; [apply N.div_lt; lia|].
  simpl. by rewrite pretty_N_char_digit.
Qed.

(** A number with exactly [k] decimal digits is rendered on [k]
    characters. *)
Lemma pretty_N_go_length (k : nat) (x : N) (s : string) :
  (x < 10 ^ N.of_nat k)%N →
  (k = 0%nat ∨ 10 ^ N.of_nat (k - 1) ≤ x)%N →
  String.length (pretty_N_go x s) = (k + String.length s)%nat.
Proof.
  revert x s. induction k as [|k IH]; intros x s Hhi Hlo.
  { replace x with 0%N by (simpl in Hhi; lia). by rewrite pretty_N_go_0. }
  destruct Hlo as [|Hlo]; [done|].
  replace (S k - 1)%nat with k in Hlo by lia.
  assert (0 < 10 ^ N.of_nat k)%N by (apply N.neq_0_lt_0, N.pow_nonzero; lia).
  rewrite pretty_N_go_step by lia.
  replace (N.of_nat (S k)) with (N.succ (N.of_nat k)) in Hhi by lia.
  rewrite N.pow_succ_r' in Hhi.
  rewrite IH; [simpl; lia| |].
  - apply N.Div0.div_lt_upper_bound. lia.
  - destruct k as [|k]; [by left|right].
    replace (S k - 1)%nat with k by lia.
    replace (N.of_nat (S k)) with (N.succ (N.of_nat k)) in Hlo by lia.
    rewrite N.pow_succ_r' in Hlo.
    apply N.div_le_lower_bound; lia.
Qed.

Lemma str_code_length (n : Z) :
  100000 ≤ n ≤ 999999 → String.length (str n) = 6%nat.
Proof.
  intros Hn. rewrite str_pos by lia.
  rewrite (pretty_N_go_length 6); [done| |right]; simpl; lia.
Qed.

Lemma str_code_numeric (n : Z) :
  100000 ≤ n ≤ 999999 → numeric (str n) = true.
Proof. intros Hn. rewrite str_pos by lia. by apply pretty_N_go_numeric. Qed.

Lemma randbelow_range (E : Env) (k : nat) (n : Z) :
  0 < n → 0 ≤ randbelow E k n < n.
Proof. intros. unfold randbelow. by apply Z.mod_pos_bound. Qed.

Lemma code_at_length (E : Env) (k : nat) : String.length (code_at E k) = 6%nat.
Proof.
  apply str_code_length.
  pose proof (randbelow_range E k 900000). lia.
Qed.

(** ** Running the authenticator *)

Ltac run :=
  unfold mbind, SE_bind, mret, SE_ret, raise, get, modify, try_except; cbn.

Section Authenticator.
Context (G : gmap string string) (E : Env).

(** The [try] statement of [send_otp]: it always returns a boolean, and
    adds to the SMTP log the message it was given if [send_message] was
    reached, nothing otherwise. *)
Lemma try_deliver_run (msg : EmailMessage) (w : World) :
  try_except (smtp_deliver G E msg;; mret true) (λ _, mret false) w
  = (Return (delivered G E (rand_calls w) msg),
     {| otp_store := otp_store w;
        rand_calls := rand_calls w;
        smtp_log := smtp_log w
                    ++ (if handed_over G E (rand_calls w) then [msg] else []);
        provider_log := provider_log w |}).
Proof.
  unfold smtp_deliver, with_smtp_ssl, with_exit, send_message, smtp,
    load_global, delivered, handed_over.
  run.
  destruct (smtp_call E (rand_calls w) Connect); cbn.
  { rewrite app_nil_r. by destruct w. }
  destruct (G !! "EMAIL_ADDRESS") as [sender|]; cbn.
  2: { rewrite app_nil_r.
       destruct (smtp_call E (rand_calls w) Quit); cbn; by destruct w. }
  destruct (G !! "EMAIL_PASSWORD") as [password|]; cbn.
  2: { rewrite app_nil_r.
       destruct (smtp_call E (rand_calls w) Quit); cbn; by destruct w. }
  destruct (smtp_call E (rand_calls w) (Login sender password)); cbn.
  { rewrite app_nil_r.
    destruct (smtp_call E (rand_calls w) Quit); cbn; by destruct w. }
  destruct (smtp_call E (rand_calls w) (SendMessage msg)); cbn;
    by destruct (smtp_call E (rand_calls w) Quit).
Qed.

(** [send_otp], statement by statement: the draw and the store come
    first, then the headers, then the [try] statement. *)
Lemma send_otp_eq (email : string) (w : World) :
  send_otp G E email w
  = let w1 := {| otp_store := <[email := code_at E (rand_calls w)]> (otp_store w);
                 rand_calls := S (rand_calls w);
                 smtp_log := smtp_log w;
                 provider_log := provider_log w |} in
    match G !! "EMAIL_ADDRESS" with
    | None => (Raise (NameError "EMAIL_ADDRESS"), w1)
    | Some sender =>
        if header_accepted E "From" sender
        then if header_accepted E "To" email
             then try_except
                    (smtp_deliver G E
                       (otp_message (code_at E (rand_calls w)) sender email);;
                     mret true)
                    (λ _, mret false) w1
             else (Raise ValueError, w1)
        else (Raise ValueError, w1)
    end.
Proof.
  unfold send_otp, randint, otp_store_set, set_header, load_global.
  unfold mbind at 1 2 3 4 5 6, SE_bind, mret, SE_ret, raise, get, modify. cbn.
  destruct (G !! "EMAIL_ADDRESS") as [a|]; cbn; [|done].
  destruct (header_accepted E "From" a); cbn; [|done].
  by destruct (header_accepted E "To" email).
Qed.

Lemma send_otp_run (email : string) (w : World) :
  ∃ r log',
    send_otp G E email w
    = (r, {| otp_store := <[email := code_at E (rand_calls w)]> (otp_store w);
             rand_calls := S (rand_calls w);
             smtp_log := log';
             provider_log := provider_log w |})
    ∧ (log' = smtp_log w ∨ ∃ msg, log' = smtp_log w ++ [msg])
    ∧ (G !! "EMAIL_ADDRESS" = None →
       r = Raise (NameError "EMAIL_ADDRESS") ∧ log' = smtp_log w).
Proof.
  rewrite send_otp_eq. cbn zeta.
  destruct (G !! "EMAIL_ADDRESS") as [a|] eqn:Ha.
  2: { eexists _, _. split; [reflexivity|]. split; [by left|done]. }
  destruct (header_accepted E "From" a).
  2: { eexists _, _. split; [reflexivity|]. split; [by left|done]. }
  destruct (header_accepted E "To" email).
  2: { eexists _, _. split; [reflexivity|]. split; [by left|done]. }
  rewrite try_deliver_run. cbn [rand_calls smtp_log otp_store provider_log].
  eexists _, _. split; [reflexivity|]. split; [|done].
  destruct (handed_over G E _); [right; by eexists|left; by rewrite app_nil_r].
Qed.

(** Whatever the outcome of [send_otp], the store holds the new code and
    nothing of the world but the store, the draw count and the SMTP log
    has changed. *)
Lemma send_otp_store (email : string) (w : World) :
  otp_store (send_otp G E email w).2
  = <[email := code_at E (rand_calls w)]> (otp_store w).
Proof. destruct (send_otp_run email w) as (r & l & -> & _). done. Qed.

Lemma send_otp_rand_calls (email : string) (w : World) :
  rand_calls (send_otp G E email w).2 = S (rand_calls w).
Proof. destruct (send_otp_run email w) as (r & l & -> & _). done. Qed.

Lemma send_otp_provider_log (email : string) (w : World) :
  provider_log (send_otp G E email w).2 = provider_log w.
Proof. destruct (send_otp_run email w) as (r & l & -> & _). done. Qed.

Lemma verify_otp_run (email : option string) (entered_otp : string) (w : World) :
  verify_otp email entered_otp w
  = (Return (bool_decide (dict_get (otp_store w) email = Some entered_otp)), w).
Proof. reflexivity. Qed.

Lemma extract_location_run (user_input : string) (w : World) :
  extract_location E user_input w
  = (Return (head (ent_text <$> filter (λ ent, label_ ent = "GPE")
                                       (nlp E user_input))), w).
Proof.
  unfold extract_location.
  destruct (ent_text <$> filter _ (nlp E user_input)) as [|x l]; done.
Qed.

End Authenticator.

(** ** The location extractor (C9) *)

Lemma first_gpe_found (before after : list Ent) (ent : Ent) :
  Forall (λ e, ¬ is_gpe e) before → is_gpe ent →
  head (ent_text <$> filter (λ e, label_ e = "GPE") (before ++ ent :: after))
  = Some (ent_text ent).
Proof.
  intros Hb Hent. induction Hb as [|e before He _ IH]; simpl.
  - by rewrite filter_cons_True.
  - by rewrite filter_cons_False.
Qed.

Lemma first_gpe_split (ents : list Ent) :
  match head (ent_text <$> filter (λ e, label_ e = "GPE") ents) with
  | None => Forall (λ e, ¬ is_gpe e) ents
  | Some t => ∃ before ent after,
      ents = before ++ ent :: after ∧ Forall (λ e, ¬ is_gpe e) before
      ∧ is_gpe ent ∧ ent_text ent = t
  end.
Proof.
  induction ents as [|e ents IH]; simpl; [done|].
  destruct (decide (label_ e = "GPE")) as [He|He].
  - rewrite filter_cons_True by done. simpl.
    by exists [], e, ents.
  - rewrite filter_cons_False by done.
    destruct (head _) as [t|].
    + destruct IH as (before & ent & after & -> & Hb & Hent & Ht).
      exists (e :: before), ent, after. by repeat split; [constructor|..].
    + by constructor.
Qed.

(** C9.  [extract_location] always returns, leaves the world as it found
    it, and its value is the text of the first entity labelled GPE in the
    order of [doc.ents], or [None] when no entity carries that label. *)
Theorem extract_location_first_gpe (E : Env) (text : string) (w : World) :
  ∃ r, extract_location E text w = (Return r, w)
       ∧ (r = None ↔ Forall (λ e, ¬ is_gpe e) (nlp E text))
       ∧ (∀ t, r = Some t ↔
            ∃ before ent after,
              nlp E text = before ++ ent :: after
              ∧ Forall (λ e, ¬ is_gpe e) before
              ∧ is_gpe ent ∧ ent_text ent = t).
Proof.
  eexists. split; [apply extract_location_run|].
  pose proof (first_gpe_split (nlp E text)) as Hsplit.
  destruct (head _) as [t|] eqn:Hhead.
  - destruct Hsplit as (before & ent & after & Hents & Hb & Hent & Ht).
    split.
    + split; [done|]. intros Hall. rewrite Hents in Hall.
      apply Forall_app in Hall as [_ Hall]. by inversion Hall.
    + intros t'. split.
      * intros [= <-]. by exists before, ent, after.
      * intros (before' & ent' & after' & Hents' & Hb' & Hent' & <-).
        rewrite Hents', first_gpe_found in Hhead by done. done.
  - split; [done|]. intros t. split; [done|].
    intros (before' & ent' & after' & Hents' & Hb' & Hent' & <-).
    rewrite Hents', first_gpe_found in Hhead by done. done.
Qed.

(** ** The OTP authenticator (C2, C4, C5, C6, C8) *)

Lemma module_globals_no_EMAIL_ADDRESS (s : Secrets) :
  module_globals s !! "EMAIL_ADDRESS" = None.
Proof. done. Qed.

(** C2 (defect of the script).  In the module as loaded the name
    [EMAIL_ADDRESS] is bound to nothing (the sender address is bound to
    [EMAIL_SENDER]), and [send_otp] reads it before its [try] block: for
    every address the call ends in the uncaught [NameError], after the
    code has been stored and without any delivery attempt. *)
Theorem send_otp_raises_NameError (s : Secrets) (E : Env)
    (email : string) (w : World) :
  send_otp (module_globals s) E email w
  = (Raise (NameError "EMAIL_ADDRESS"),
     {| otp_store := <[email := code_at E (rand_calls w)]> (otp_store w);
        rand_calls := S (rand_calls w);
        smtp_log := smtp_log w;
        provider_log := provider_log w |}).
Proof.
  destruct (send_otp_run (module_globals s) E email w)
    as (r & l & -> & _ & Hname).
  destruct (Hname (module_globals_no_EMAIL_ADDRESS s)) as [-> ->]. done.
Qed.

(** With the sender bound and both headers accepted, the [try] block does
    what it is there for: a boolean whatever the transport does, and at
    most one message handed to the server. *)
Lemma send_otp_returns_when_bound (G : gmap string string) (E : Env)
    (email sender : string) (w : World) :
  G !! "EMAIL_ADDRESS" = Some sender →
  header_accepted E "From" sender = true →
  header_accepted E "To" email = true →
  let msg := otp_message (code_at E (rand_calls w)) sender email in
  (send_otp G E email w).1
  = Return (delivered G E (S (rand_calls w)) msg)
  ∧ smtp_log (send_otp G E email w).2
    = smtp_log w ++ (if handed_over G E (S (rand_calls w)) then [msg] else []).
Proof.
  intros Hs Hfrom Hto. cbn zeta.
  rewrite send_otp_eq. cbn zeta. rewrite Hs, Hfrom, Hto.
  by rewrite try_deliver_run.
Qed.

(** C4.  [verify_otp] returns, leaves the world (hence the store) as it
    found it, answers [True] exactly when a code is stored for the address
    and equals the candidate, and therefore answers the same on a second
    call with the same arguments. *)
Theorem verify_otp_correct (email candidate : string) (w : World) :
  ∃ b : bool,
    verify_otp (Some email) candidate w = (Return b, w)
    ∧ (b = true ↔ otp_store w !! email = Some candidate)
    ∧ (otp_store w !! email = None → b = false)
    ∧ (∀ code, otp_store w !! email = Some code → code ≠ candidate → b = false)
    ∧ (b1 ← verify_otp (Some email) candidate;
       b2 ← verify_otp (Some email) candidate;
       mret (b1, b2)) w = (Return (b, b), w).
Proof.
  eexists. split; [apply verify_otp_run|]. simpl.
  split; [apply bool_decide_eq_true|].
  split; [intros ->; by apply bool_decide_eq_false|].
  split; [|done].
  intros code -> Hne. apply bool_decide_eq_false. congruence.
Qed.

(** C5.  The code is stored by the first two statements of [send_otp],
    before any SMTP session is opened, and nothing after them touches the
    store: whatever the outcome (delivered, delivery failed, exception),
    the store afterwards holds the new code under the address. *)
Theorem send_otp_stores_before_delivery (G : gmap string string) (E : Env)
    (email : string) (w : World) :
  ∃ w1,
    (n ← randint E 100000 999999; otp_store_set email (str n)) w
    = (Return tt, w1)
    ∧ otp_store w1 = <[email := code_at E (rand_calls w)]> (otp_store w)
    ∧ smtp_log w1 = smtp_log w
    ∧ otp_store (send_otp G E email w).2 = otp_store w1
    ∧ otp_store (send_otp G E email w).2 !! email
      = Some (code_at E (rand_calls w)).
Proof.
  eexists. split; [reflexivity|]. cbn.
  rewrite send_otp_store, lookup_insert_eq. done.
Qed.

Section SendSequences.
Context (G : gmap string string) (E : Env).

Lemma send_all_app (pre post : list string) (w : World) :
  send_all G E (pre ++ post) w = send_all G E post (send_all G E pre w).
Proof. revert w. induction pre as [|e pre IH]; intros w; simpl; auto. Qed.

Lemma send_all_rand_calls (emails : list string) (w : World) :
  rand_calls (send_all G E emails w) = (rand_calls w + length emails)%nat.
Proof.
  revert w. induction emails as [|e emails IH]; intros w; simpl; [lia|].
  rewrite IH, send_otp_rand_calls. lia.
Qed.

Lemma send_all_untouched (emails : list string) (e : string) (w : World) :
  e ∉ emails → otp_store (send_all G E emails w) !! e = otp_store w !! e.
Proof.
  revert w. induction emails as [|e' emails IH]; intros w Hnotin; simpl; [done|].
  apply not_elem_of_cons in Hnotin as [Hne Hnotin].
  rewrite IH, send_otp_store, lookup_insert_ne by done. done.
Qed.

End SendSequences.

(** C6.  After any sequence of sends, the store holds under an address the
    code generated by the last send to that address; after two sends in a
    row to one address, [verify_otp] accepts a candidate exactly when it
    is the second code. *)
Theorem otp_last_write_wins (G : gmap string string) (E : Env)
    (pre post : list string) (e : string) (w : World) :
  e ∉ post →
  let sent := (send_otp G E e (send_all G E pre w)).2 in
  otp_store (send_all G E (pre ++ e :: post) w) !! e = otp_store sent !! e
  ∧ otp_store sent !! e = Some (code_at E (rand_calls w + length pre))
  ∧ ∀ candidate,
      (verify_otp (Some e) candidate (send_all G E [e; e] w)).1 = Return true
      ↔ candidate = code_at E (S (rand_calls w)).
Proof.
  intros Hpost sent. subst sent. split; [|split].
  - rewrite send_all_app. simpl. by rewrite send_all_untouched.
  - by rewrite send_otp_store, lookup_insert_eq, send_all_rand_calls.
  - intros candidate. rewrite verify_otp_run. simpl.
    rewrite !send_otp_store, send_otp_rand_calls, lookup_insert_eq.
    split.
    + intros [= Hb]. apply bool_decide_eq_true in Hb. congruence.
    + intros ->. by rewrite bool_decide_eq_true_2.
Qed.

Lemma otp_last_write_wins_witness :
  ("a@b.com" ∉ ["c@d.org"])
  ∧ otp_store (send_all (module_globals sample_secrets) sample_env
                 (["a@b.com"; "x@y.net"] ++ "a@b.com" :: ["c@d.org"])
                 empty_world) !! "a@b.com"
    = Some (code_at sample_env (0 + 2)).
Proof.
  split; [compute_done|].
  pose proof (otp_last_write_wins (module_globals sample_secrets) sample_env
                ["a@b.com"; "x@y.net"] ["c@d.org"] "a@b.com" empty_world
                ltac:(compute_done)) as (H1 & H2 & _).
  exact (eq_trans H1 H2).
Defined.

(** C8.  The code [send_otp] stores is the decimal string of the integer
    [randint] returned, and of no other integer: [100000] plus the draw
    below [900000], a value [n] with [100000 ≤ n ≤ 999999] whose string
    has six characters, all of them digits.  The draws below [900000]
    and the codes of the range correspond one to one: with any source of
    draws, the code [c] is stored exactly when the draw is [c - 100000],
    so the stored code is as evenly distributed as the draw. *)
Theorem send_otp_code_six_digits (G : gmap string string) (E : Env)
    (email : string) (w : World) :
  ∃ n : Z,
    (randint E 100000 999999 w).1 = Return n
    ∧ n = 100000 + entropy E (rand_calls w) `mod` 900000
    ∧ 100000 ≤ n ≤ 999999
    ∧ otp_store (send_otp G E email w).2 !! email = Some (str n)
    ∧ (∀ c : Z, otp_store (send_otp G E email w).2 !! email = Some (str c)
                ↔ c = n)
    ∧ String.length (str n) = 6%nat
    ∧ numeric (str n) = true
    ∧ ∀ c, 100000 ≤ c ≤ 999999 →
        ∀ draw : nat → Z, 0 ≤ draw (rand_calls w) < 900000 →
          otp_store (send_otp G (with_entropy draw E) email w).2 !! email
          = Some (str c)
          ↔ draw (rand_calls w) = c - 100000.
Proof.
  exists (100000 + randbelow E (rand_calls w) 900000).
  pose proof (randbelow_range E (rand_calls w) 900000 ltac:(lia)) as Hr.
  split; [reflexivity|].
  split; [reflexivity|].
  split; [lia|].
  split; [by rewrite send_otp_store, lookup_insert_eq|].
  split.
  { intros c. rewrite send_otp_store, lookup_insert_eq. unfold code_at.
    split; [intros [= Heq]; symmetry; by apply (inj str) in Heq|by intros ->]. }
  split; [apply str_code_length; lia|].
  split; [apply str_code_numeric; lia|].
  intros c Hc draw Hdraw.
  rewrite send_otp_store, lookup_insert_eq. unfold code_at, randbelow.
  cbn [entropy with_entropy]. rewrite Z.mod_small by done. split.
  - intros [= Heq]. apply (inj str) in Heq. lia.
  - intros ->. do 2 f_equal. lia.
Qed.

(** ** The workflow *)

Lemma invoke_graph (G : gmap string string) (E : Env) (st : St) :
  invoke (graph G E) st = chain G E st.
Proof.
  unfold invoke, graph, workflow, chain. cbn.
  unfold mbind, SE_bind, mret, SE_ret.
  destruct (greet_user st) as [[[]|e] st1]; [|done].
  destruct (get_location E st1) as [[[]|e] st2]; [|done].
  destruct (request_email G E st2) as [[[]|e] st3]; [|done].
  destruct (verify_user_otp st3) as [[[]|e] st4]; [|done].
  by destruct (provide_info E st4) as [[[]|e] st5].
Qed.

Section Nodes.
Context (G : gmap string string) (E : Env).

Lemma greet_user_run (st : St) :
  greet_user st = (Return tt, push (bot_msg greeting) st).
Proof. reflexivity. Qed.

Lemma get_location_run (st : St) :
  get_location E st =
  match last (messages (chat st)) with
  | None => (Raise IndexError, st)
  | Some m =>
      let loc := first_gpe E (content m) in
      if truthy loc
      then (Return tt,
            push (bot_msg ("Got it! You are interested in " +:+ format loc
                           +:+ ". Can I have your email for verification?"))
                 (with_location loc st))
      else (Return tt,
            push (bot_msg "I couldn't detect a location. Can you mention it explicitly?")
                 st)
  end.
Proof.
  unfold get_location, last_content, get_chat, lift_world, append_message,
    modify_chat.
  run. destruct (last (messages (chat st))) as [m|]; [|done]. cbn.
  rewrite extract_location_run. fold (first_gpe E (content m)).
  by destruct (truthy (first_gpe E (content m))).
Qed.

Lemma request_email_run (st : St) :
  request_email G E st =
  match last (messages (chat st)) with
  | None => (Raise IndexError, st)
  | Some m =>
      if py_in "@" (content m) then
        let sent := send_otp G E (content m) (world st) in
        let st1 := with_world sent.2 (with_email (content m) st) in
        match sent.1 with
        | Return true =>
            (Return tt,
             push (bot_msg "OTP sent to your email. Please enter the OTP.") st1)
        | Return false =>
            (Return tt, push (bot_msg "Failed to send OTP. Try again.") st1)
        | Raise e => (Raise e, st1)
        end
      else
        (Return tt, push (bot_msg "Please enter a valid email address.") st)
  end.
Proof.
  unfold request_email, last_content, get_chat, lift_world, append_message,
    modify_chat.
  run. destruct (last (messages (chat st))) as [m|]; [|done]. cbn.
  destruct (py_in "@" (content m)); [|done]. cbn.
  by destruct (send_otp G E (content m) (world st)) as [[[]|e] w'].
Qed.

Lemma verify_user_otp_run (st : St) :
  verify_user_otp st =
  match last (messages (chat st)) with
  | None => (Raise IndexError, st)
  | Some m =>
      if bool_decide (dict_get (otp_store (world st)) (email (chat st))
                      = Some (content m))
      then (Return tt,
            push (bot_msg "OTP verified successfully! Fetching historical information...")
                 (with_verified st))
      else (Return tt, push (bot_msg "Invalid OTP. Try again.") st)
  end.
Proof.
  unfold verify_user_otp, last_content, get_chat, lift_world, append_message,
    modify_chat.
  run. destruct (last (messages (chat st))) as [m|]; [|done]. cbn.
  rewrite verify_otp_run. by destruct (bool_decide _).
Qed.

Lemma get_monument_info_run (loc : option string) (w : World) :
  get_monument_info E loc w =
  (generate_content E (length (provider_log w))
     ("Tell me about the top historical monuments in " +:+ format loc
      +:+ " with their significance."),
   {| otp_store := otp_store w; rand_calls := rand_calls w;
      smtp_log := smtp_log w; provider_log := provider_log w ++ [loc] |}).
Proof.
  unfold get_monument_info. run. by destruct (generate_content E _ _).
Qed.

Lemma provide_info_run (st : St) :
  provide_info E st =
  if otp_verified (chat st) then
    let info := get_monument_info E (location (chat st)) (world st) in
    match info.1 with
    | Return text => (Return tt, push (bot_msg text) (with_world info.2 st))
    | Raise e => (Raise e, with_world info.2 st)
    end
  else (Return tt, push (bot_msg "OTP not verified. Cannot proceed.") st).
Proof.
  unfold provide_info, get_chat, lift_world, append_message, modify_chat.
  run. destruct (otp_verified (chat st)); [|done].
  by destruct (get_monument_info E (location (chat st)) (world st)) as [[text|e] w'].
Qed.

(** *** Each node appends one bot message, or raises and appends none *)

Lemma greet_user_effect (st : St) :
  node_effect st (greet_user st).1 (greet_user st).2.
Proof. rewrite greet_user_run. by eexists. Qed.

Lemma get_location_effect (st : St) :
  node_effect st (get_location E st).1 (get_location E st).2
  ∧ (messages (chat st) ≠ [] → (get_location E st).1 = Return tt).
Proof.
  rewrite get_location_run.
  destruct (last (messages (chat st))) as [m|] eqn:Hlast.
  - cbn. destruct (truthy _); (split; [by eexists|done]).
  - apply last_None in Hlast. by split.
Qed.

Lemma request_email_effect (st : St) :
  node_effect st (request_email G E st).1 (request_email G E st).2.
Proof.
  rewrite request_email_run.
  destruct (last (messages (chat st))) as [m|]; [|done].
  destruct (py_in "@" (content m)); [|by eexists]. cbn.
  destruct (send_otp G E (content m) (world st)).1 as [[]|e]; by try eexists.
Qed.

Lemma verify_user_otp_effect (st : St) :
  node_effect st (verify_user_otp st).1 (verify_user_otp st).2
  ∧ (messages (chat st) ≠ [] → (verify_user_otp st).1 = Return tt).
Proof.
  rewrite verify_user_otp_run.
  destruct (last (messages (chat st))) as [m|] eqn:Hlast.
  - destruct (bool_decide _); (split; [by eexists|done]).
  - apply last_None in Hlast. by split.
Qed.

Lemma provide_info_effect (st : St) :
  node_effect st (provide_info E st).1 (provide_info E st).2.
Proof.
  rewrite provide_info_run.
  destruct (otp_verified (chat st)); [|by eexists]. cbn.
  destruct (get_monument_info E _ _).1 as [text|e]; by try eexists.
Qed.

Lemma process_message_run (text : string) (st : St) :
  process_message G E text st = chain G E (push (user_msg text) st).
Proof.
  unfold process_message, append_message, modify_chat.
  unfold mbind at 1. unfold SE_bind. apply invoke_graph.
Qed.

End Nodes.

Lemma last_push (m : Message) (st : St) :
  last (messages (chat (push m st))) = Some m.
Proof. apply last_snoc. Qed.

Lemma py_in_at_app (a b : string) :
  py_in "@" (a +:+ b) = py_in "@" a || py_in "@" b.
Proof.
  induction a as [|c a IH].
  - cbn. by destruct b.
  - change (py_in "@" (String c a +:+ b))
      with (String.prefix "@" (String c (a +:+ b)) || py_in "@" (a +:+ b)).
    change (py_in "@" (String c a))
      with (String.prefix "@" (String c a) || py_in "@" a).
    rewrite IH, orb_assoc. cbn [String.prefix].
    destruct (ascii_dec "@"%char c); [|done].
    assert (∀ s, String.prefix "" s = true) as Hempty by (by intros []).
    by rewrite !Hempty.
Qed.

Lemma location_reply_at (E : Env) (text : string) :
  py_in "@" (content (location_reply E text))
  = truthy (first_gpe E text) && py_in "@" (format (first_gpe E text)).
Proof.
  unfold location_reply.
  destruct (truthy (first_gpe E text)); [|done].
  cbn [content bot_msg andb]. rewrite !py_in_at_app.
  by rewrite orb_false_r.
Qed.

Section Turns.
Context (G : gmap string string) (E : Env).

Lemma get_location_push (m : Message) (st : St) :
  get_location E (push m st)
  = (Return tt,
     push (location_reply E (content m))
       (if truthy (first_gpe E (content m))
        then with_location (first_gpe E (content m)) (push m st)
        else push m st)).
Proof.
  rewrite get_location_run, last_push. unfold location_reply. cbn zeta.
  by destruct (truthy (first_gpe E (content m))).
Qed.

Lemma location_reply_bot (text : string) : role (location_reply E text) = bot.
Proof. unfold location_reply. by destruct (truthy _). Qed.

(** Whether [request_email] raises, for the message it reads in an
    invocation. *)
Lemma request_email_raises (st : St) :
  last (messages (chat st)) = Some (location_reply E greeting) →
  match (request_email G E st).1 with
  | Return _ => email_step_raises G E = false
  | Raise _ => email_step_raises G E = true
  end.
Proof.
  intros Hlast. rewrite request_email_run, Hlast. unfold email_step_raises.
  cbn zeta. destruct (py_in "@" _); [|done]. cbn zeta.
  rewrite send_otp_eq. cbn zeta.
  destruct (G !! "EMAIL_ADDRESS") as [sender|]; [|done].
  destruct (header_accepted E "From" sender); [|done].
  destruct (header_accepted E "To" _); [|done].
  rewrite try_deliver_run. cbn. by destruct (delivered _ _ _ _).
Qed.

(** One invocation, with the node that raised told apart: an invocation
    that returns has appended the greeting and four more bot messages;
    one that raises has appended the greeting and one more when
    [request_email] raised, the greeting and three more when
    [provide_info] did. *)
Lemma chain_lengths (st : St) :
  ∃ bots,
    messages (chat (chain G E st).2)
    = messages (chat st) ++ bot_msg greeting :: bots
    ∧ Forall (λ m, role m = bot) bots
    ∧ match (chain G E st).1 with
      | Return _ => length bots = 4%nat ∧ email_step_raises G E = false
      | Raise _ => if email_step_raises G E
                   then length bots = 1%nat
                   else length bots = 3%nat
      end.
Proof.
  unfold chain. unfold mbind, SE_bind.
  rewrite greet_user_run, get_location_push.
  change (content (bot_msg greeting)) with greeting.
  set (s1 := if truthy (first_gpe E greeting) then _ else _).
  assert (messages (chat s1) = messages (chat st) ++ [bot_msg greeting])
    as Hm1.
  { subst s1. by destruct (truthy _). }
  clearbody s1.
  set (b2 := location_reply E greeting).
  pose proof (location_reply_bot greeting) as Hb2. fold b2 in Hb2.
  set (s2 := push b2 s1).
  assert (messages (chat s2) = messages (chat s1) ++ [b2]) as Hm2 by done.
  pose proof (request_email_raises s2 (last_push b2 s1)) as Hr3.
  clearbody s2.
  pose proof (request_email_effect G E s2) as H3.
  destruct (request_email G E s2) as [[[]|e3] s3]; cbn in H3, Hr3.
  2: { exists [b2]. cbn. rewrite Hr3, H3, Hm2, Hm1, <-!app_assoc. cbn.
       split; [done|]. split; [by repeat constructor|done]. }
  destruct H3 as (b3 & Hm3 & Hb3).
  pose proof (verify_user_otp_effect s3) as [H4 R4].
  rewrite R4 in H4 by (rewrite Hm3; by destruct (messages (chat s2))).
  destruct (verify_user_otp s3) as [r4 s4]; cbn in R4, H4.
  rewrite R4 by (rewrite Hm3; by destruct (messages (chat s2))).
  destruct H4 as (b4 & Hm4 & Hb4).
  pose proof (provide_info_effect E s4) as H5.
  destruct (provide_info E s4) as [[[]|e5] s5]; cbn in H5.
  2: { exists [b2; b3; b4]. cbn.
       rewrite Hr3, H5, Hm4, Hm3, Hm2, Hm1, <-!app_assoc. cbn.
       split; [done|]. split; [by repeat constructor|done]. }
  destruct H5 as (b5 & Hm5 & Hb5).
  exists [b2; b3; b4; b5]. cbn.
  rewrite Hm5, Hm4, Hm3, Hm2, Hm1, <-!app_assoc. cbn.
  split; [done|]. split; [by repeat constructor|done].
Qed.

(** Lines 151 to 164 on the stored message list.  Line 154 reaches that
    list only while the session object is the instance; the invocation
    then appends the greeting and the replies of the nodes that
    returned.  A dict is stored, with an empty attribute, exactly when
    the invocation returns. *)
Lemma submit_shape (text : string) (s : Session) :
  ∃ bots,
    transcript (held (submit G E text s).2)
    = transcript (held s)
      ++ match attr s with
         | None => [user_msg text]
         | Some _ => []
         end
      ++ bot_msg greeting :: bots
    ∧ Forall (λ m, role m = bot) bots
    ∧ match (submit G E text s).1 with
      | Return _ => length bots = 4%nat
                    ∧ email_step_raises G E = false
                    ∧ attr (submit G E text s).2 = Some []
      | Raise _ => (if email_step_raises G E
                    then length bots = 1%nat
                    else length bots = 3%nat)
                   ∧ (attr (submit G E text s).2 = None ↔ attr s = None)
      end.
Proof.
  unfold submit, transcript. destruct (attr s) as [l|].
  - rewrite invoke_graph.
    destruct (chain_lengths (held s)) as (bots & Hm & Hb & Hn).
    exists bots. destruct (chain G E (held s)) as [[[]|e] st'];
      cbn [fst snd held attr unwound chat messages] in *.
    + destruct Hn. by rewrite Hm.
    + by rewrite Hm.
  - rewrite process_message_run.
    destruct (chain_lengths (push (user_msg text) (held s)))
      as (bots & Hm & Hb & Hn).
    exists bots.
    destruct (chain G E (push (user_msg text) (held s))) as [[[]|e] st'];
      cbn [fst snd held attr unwound chat messages push] in *.
    + destruct Hn. by rewrite Hm, <-app_assoc.
    + by rewrite Hm, <-app_assoc.
Qed.

Lemma session_loop_cons (ev : Event) (evs : list Event) (s : Session) :
  session_loop G E (ev :: evs) s
  = session_loop G E evs (session_step G E ev s).2.
Proof. reflexivity. Qed.

Lemma session_loop_completes_cons (ev : Event) (evs : list Event)
    (s : Session) :
  session_loop_completes G E (ev :: evs) s
  = returned (session_step G E ev s).1
    && session_loop_completes G E evs (session_step G E ev s).2.
Proof. reflexivity. Qed.


End Turns.

(** ** Transcripts (C1) *)




(** ** The script against the stage machine (C3) *)

Lemma stage_handle_message_shape (E : Env) (text : string)
    (st : StageMachine.SSt) :
  ∃ reply,
    StageMachine.transcript (StageMachine.handle_message E text st)
    = StageMachine.transcript st ++ [user_msg text; reply]
    ∧ role reply = bot
    ∧ (StageMachine.stage (StageMachine.session st) = StageMachine.GREET →
       reply = bot_msg greeting).
Proof.
  unfold StageMachine.handle_message, StageMachine.dispatch,
    StageMachine.transcript.
  cbn. destruct (StageMachine.stage (StageMachine.session st)); cbn.
  - eexists. by rewrite <-app_assoc.
  - destruct (StageMachine.extract E text); cbn;
      eexists; by rewrite <-app_assoc.
  - destruct (py_in "@" text); cbn; eexists; by rewrite <-app_assoc.
  - destruct (from_option _ _ _); cbn; eexists; by rewrite <-app_assoc.
  - destruct (StageMachine.place (StageMachine.session st)); cbn;
      eexists; by rewrite <-app_assoc.
Qed.

Lemma stage_session_run_shape (E : Env) (lines : list string)
    (st : StageMachine.SSt) :
  ∃ suffix,
    StageMachine.transcript (StageMachine.session_run E lines st)
    = StageMachine.transcript st ++ suffix
    ∧ length suffix = (2 * length lines)%nat.
Proof.
  revert st. induction lines as [|text lines IH]; intros st.
  - exists []. by rewrite app_nil_r.
  - change (StageMachine.session_run E (text :: lines) st)
      with (StageMachine.session_run E lines
              (StageMachine.handle_message E text st)).
    destruct (IH (StageMachine.handle_message E text st))
      as (suffix & -> & Hlen).
    destruct (stage_handle_message_shape E text st) as (reply & -> & _).
    exists ([user_msg text; reply] ++ suffix).
    rewrite <-app_assoc. split; [done|]. cbn. lia.
Qed.

(** Between three and six messages reach the stored list per user line.
    A line whose invocation raises in [request_email] adds two when the
    session object is a stored dict; but then [request_email] raises in
    every invocation, none returns, and the session object is the
    instance throughout. *)
Lemma session_loop_shape (G : gmap string string) (E : Env)
    (evs : list Event) (s : Session) :
  (email_step_raises G E = true → attr s = None) →
  ∃ suffix,
    transcript (held (session_loop G E evs s)) = transcript (held s) ++ suffix
    ∧ (3 * length (user_lines evs) ≤ length suffix
       ≤ 6 * length (user_lines evs))%nat
    ∧ (attr s = None → ∀ text lines,
         user_lines evs = text :: lines →
         take 2 suffix = [user_msg text; bot_msg greeting]).
Proof.
  revert s. induction evs as [|[text|] evs IH]; intros s Hmode.
  - exists []. rewrite app_nil_r. cbn. split; [done|]. split; [lia|done].
  - rewrite session_loop_cons.
    change (session_step G E (UserLine text) s) with (submit G E text s).
    destruct (submit_shape G E text s) as (bots & Hm & Hb & Hn).
    destruct (IH (submit G E text s).2) as (suffix & -> & Hlen & _).
    { intros Hraises.
      destruct (submit G E text s).1; [|apply Hn, Hmode, Hraises].
      destruct Hn as (_ & Hno & _). congruence. }
    rewrite Hm.
    exists ((match attr s with
             | None => [user_msg text]
             | Some _ => []
             end ++ bot_msg greeting :: bots) ++ suffix).
    rewrite <-!app_assoc. split; [done|].
    change (user_lines (UserLine text :: evs)) with (text :: user_lines evs).
    split.
    + rewrite !length_app. cbn [length].
      destruct (email_step_raises G E) eqn:Hraises.
      * rewrite (Hmode eq_refl) in *. cbn [length].
        destruct (submit G E text s).1; [|lia].
        destruct Hn as (_ & Hno & _). congruence.
      * destruct (attr s), (submit G E text s).1; cbn [length]; lia.
    + intros -> text' lines [= <- _]. done.
  - rewrite session_loop_cons.
    destruct (IH (session_step G E ScriptReload s).2 Hmode)
      as (suffix & Hs & Hl & Hfirst).
    exists suffix. split; [exact Hs|]. split; [exact Hl|exact Hfirst].
Qed.

Lemma session_run_shape (G : gmap string string) (E : Env)
    (evs : list Event) (st : St) :
  ∃ suffix,
    transcript (session_run G E evs st) = transcript st ++ suffix
    ∧ (3 * length (user_lines evs) ≤ length suffix
       ≤ 6 * length (user_lines evs))%nat.
Proof.
  destruct (session_loop_shape G E evs (instance st)) as (suffix & Hs & Hl & _);
    [done|].
  by exists suffix.
Qed.

(** The first user line of a fresh session is answered by the greeting on
    both sides. *)
Lemma session_run_first_turn (G : gmap string string) (E : Env)
    (evs : list Event) (st : St) (text : string) (lines : list string) :
  transcript st = [] → user_lines evs = text :: lines →
  take 2 (transcript (session_run G E evs st))
  = [user_msg text; bot_msg greeting].
Proof.
  intros Hnil Hlines.
  destruct (session_loop_shape G E evs (instance st))
    as (suffix & Hs & _ & Hfirst); [done|].
  unfold session_run. rewrite Hs. cbn [instance held]. rewrite Hnil.
  by apply (Hfirst eq_refl text lines).
Qed.

Lemma stage_session_run_first_turn (E : Env) (w : World)
    (text : string) (lines : list string) :
  take 2 (StageMachine.transcript
            (StageMachine.session_run E (text :: lines)
               (StageMachine.fresh_session w)))
  = [user_msg text; bot_msg greeting].
Proof.
  change (StageMachine.session_run E (text :: lines)
            (StageMachine.fresh_session w))
    with (StageMachine.session_run E lines
            (StageMachine.handle_message E text
               (StageMachine.fresh_session w))).
  destruct (stage_session_run_shape E lines
              (StageMachine.handle_message E text
                 (StageMachine.fresh_session w))) as (suffix & -> & _).
  done.
Qed.

(** C3, as the script has it.  On the same user lines and the same outside
    world, the stage machine appends one bot message per line where the
    script appends the replies of all the nodes it runs (between two and
    five, five when the invocation completes).  The two transcripts start
    with the same two messages, the first user line and the greeting, and
    are equal only when no line has been processed. *)
Theorem stage_dispatch_transcript_differs (G : gmap string string) (E : Env)
    (evs : list Event) (w : World) :
  let original := transcript (session_run G E evs (fresh_session w)) in
  let staged :=
    StageMachine.transcript
      (StageMachine.session_run E (user_lines evs)
         (StageMachine.fresh_session w)) in
  let k := length (user_lines evs) in
  length staged = (2 * k)%nat
  ∧ (3 * k ≤ length original ≤ 6 * k)%nat
  ∧ (original = staged ↔ user_lines evs = [])
  ∧ (user_lines evs ≠ [] → take 2 original = take 2 staged).
Proof.
  intros original staged k. subst original staged k.
  destruct (session_run_shape G E evs (fresh_session w)) as (so & Ho & Hlo).
  destruct (stage_session_run_shape E (user_lines evs)
              (StageMachine.fresh_session w)) as (ss & Hs & Hls).
  change (transcript (fresh_session w) ++ so) with so in Ho.
  change (StageMachine.transcript (StageMachine.fresh_session w) ++ ss)
    with ss in Hs.
  split; [by rewrite Hs|]. split; [by rewrite Ho|]. split.
  - rewrite Ho, Hs. split.
    + intros ->. destruct (user_lines evs); [done|]. cbn in *. lia.
    + intros Hnil. rewrite Hnil in *. cbn in *.
      destruct so, ss; cbn in *; (done || lia).
  - intros Hne.
    destruct (user_lines evs) as [|text lines] eqn:Hlines; [done|].
    rewrite (session_run_first_turn G E evs _ text lines) by done.
    by rewrite stage_session_run_first_turn.
Qed.

(** The first message of a fresh session: six messages in the script's
    transcript, two in the stage machine's. *)
Lemma stage_dispatch_not_identical :
  transcript (session_run (module_globals sample_secrets) sample_env
                [UserLine "I want to visit Paris"]
                (fresh_session empty_world))
  = [ user_msg "I want to visit Paris";
      bot_msg "Hello! I'm your historical monument guide. Where are you traveling?";
      bot_msg "I couldn't detect a location. Can you mention it explicitly?";
      bot_msg "Please enter a valid email address.";
      bot_msg "Invalid OTP. Try again.";
      bot_msg "OTP not verified. Cannot proceed." ]
  ∧ StageMachine.transcript
      (StageMachine.session_run sample_env ["I want to visit Paris"]
         (StageMachine.fresh_session empty_world))
    = [ user_msg "I want to visit Paris";
        bot_msg "Hello! I'm your historical monument guide. Where are you traveling?" ]
  ∧ transcript (session_run (module_globals sample_secrets) sample_env
                  [UserLine "I want to visit Paris"]
                  (fresh_session empty_world))
    ≠ StageMachine.transcript
        (StageMachine.session_run sample_env ["I want to visit Paris"]
           (StageMachine.fresh_session empty_world)).
Proof.
  split; [vm_compute; reflexivity|].
  split; [vm_compute; reflexivity|].
  vm_compute. discriminate.
Qed.

(** ** The provider is reached only by verified sessions (C7) *)

Lemma codes_wf_lookup (d : gmap string string) (k : option string)
    (text : string) :
  codes_wf d → String.length text ≠ 6%nat → dict_get d k ≠ Some text.
Proof.
  intros Hwf Hlen Hget. destruct k as [k|]; [|done]. cbn in Hget.
  apply Hlen. by apply (map_Forall_lookup_1 _ _ _ _ Hwf Hget).
Qed.

Lemma codes_wf_send_otp (G : gmap string string) (E : Env)
    (email : string) (w : World) :
  codes_wf (otp_store w) → codes_wf (otp_store (send_otp G E email w).2).
Proof.
  intros Hwf. rewrite send_otp_store.
  apply map_Forall_insert_2; [apply code_at_length|done].
Qed.

Section Invariant.
Context (G : gmap string string) (E : Env) (st0 : St).

Lemma session_inv_push (m : Message) (s : St) :
  session_inv E st0 s → session_inv E st0 (push m s).
Proof. done. Qed.

Lemma greet_user_inv (s : St) :
  session_inv E st0 s → session_inv E st0 (greet_user s).2.
Proof. done. Qed.

Lemma get_location_inv (s : St) :
  session_inv E st0 s → session_inv E st0 (get_location E s).2.
Proof.
  intros Hinv. rewrite get_location_run.
  destruct (last (messages (chat s))) as [m|]; [|done]. cbn.
  destruct (truthy (first_gpe E (content m))) eqn:Htruthy; [|done].
  destruct Hinv as (Hv & Hwf & Hsafe & Hloc & Hcalls).
  split; [done|]. split; [done|]. split; [by intros _|].
  split; [right; by exists (content m)|done].
Qed.

Lemma request_email_inv (s : St) :
  session_inv E st0 s →
  session_inv E st0 (request_email G E s).2
  ∧ ((request_email G E s).1 = Return tt →
     ∃ m, last (messages (chat (request_email G E s).2)) = Some m
          ∧ String.length (content m) ≠ 6%nat).
Proof.
  intros Hinv. rewrite request_email_run.
  destruct (last (messages (chat s))) as [m|]; [|done].
  destruct (py_in "@" (content m)).
  2: { split; [done|]. intros _. eexists. split; [apply last_push|done]. }
  cbn zeta.
  assert (session_inv E st0
            (with_world (send_otp G E (content m) (world s)).2
               (with_email (content m) s))) as Hinv'.
  { destruct Hinv as (Hv & Hwf & Hsafe & Hloc & Hcalls).
    repeat split; try done.
    - by apply codes_wf_send_otp.
    - cbn. by rewrite send_otp_provider_log. }
  destruct (send_otp G E (content m) (world s)).1 as [[]|e];
    (split; [done|]); try done;
    intros _; eexists; (split; [apply last_push|done]).
Qed.

Lemma verify_user_otp_inv (s : St) (m : Message) :
  session_inv E st0 s →
  last (messages (chat s)) = Some m → String.length (content m) ≠ 6%nat →
  session_inv E st0 (verify_user_otp s).2.
Proof.
  intros Hinv Hlast Hlen. rewrite verify_user_otp_run, Hlast.
  rewrite bool_decide_eq_false_2; [done|].
  apply codes_wf_lookup; [|done]. apply Hinv.
Qed.

Lemma provide_info_inv (s : St) :
  session_inv E st0 s → session_inv E st0 (provide_info E s).2.
Proof.
  intros Hinv. rewrite provide_info_run.
  destruct (otp_verified (chat s)) eqn:Hverified; [|done]. cbn zeta.
  assert (session_inv E st0
            (with_world (get_monument_info E (location (chat s)) (world s)).2 s))
    as Hinv'.
  { destruct Hinv as (Hv & Hwf & Hsafe & Hloc & calls & Hlog & Hcalls & Hne).
    rewrite get_monument_info_run. repeat split; try done.
    exists (calls ++ [location (chat s)]). cbn. rewrite Hlog, <-app_assoc.
    split; [done|]. split.
    - apply Forall_app. split; [done|]. constructor; [by apply Hsafe|done].
    - intros _. congruence. }
  by destruct (get_monument_info E (location (chat s)) (world s)).1.
Qed.

Lemma chain_inv (s : St) :
  session_inv E st0 s → session_inv E st0 (chain G E s).2.
Proof.
  intros Hinv. unfold chain. unfold mbind, SE_bind.
  rewrite greet_user_run.
  pose proof (greet_user_inv s Hinv) as H1. rewrite greet_user_run in H1.
  cbn [snd] in H1.
  pose proof (get_location_inv _ H1) as H2.
  destruct (get_location E (push (bot_msg greeting) s)) as [[[]|e2] s2];
    [|done].
  cbn [snd] in H2.
  pose proof (request_email_inv _ H2) as [H3 L3].
  destruct (request_email G E s2) as [[[]|e3] s3]; [|done].
  cbn [fst snd] in H3, L3. destruct (L3 eq_refl) as (m & Hlast & Hlen).
  pose proof (verify_user_otp_inv _ _ H3 Hlast Hlen) as H4.
  destruct (verify_user_otp s3) as [[[]|e4] s4]; [|done].
  cbn [snd] in H4.
  pose proof (provide_info_inv _ H4) as H5.
  by destruct (provide_info E s4) as [[[]|e5] s5].
Qed.

(** An invocation that raises: the session object keeps its fields, the
    world what was done to it. *)
Lemma unwound_inv (s s' : St) :
  session_inv E st0 s → session_inv E st0 s' →
  session_inv E st0 (unwound s s').
Proof.
  intros (Hv & _ & Hsafe & Hloc & _) (_ & Hwf & _ & _ & Hcalls).
  by repeat split.
Qed.

Lemma submit_inv (text : string) (s : Session) :
  session_inv E st0 (held s) →
  session_inv E st0 (held (submit G E text s).2).
Proof.
  intros Hinv. unfold submit. destruct (attr s) as [l|].
  - rewrite invoke_graph. pose proof (chain_inv _ Hinv) as Hinv'.
    destruct (chain G E (held s)) as [[[]|e] st']; cbn [snd held] in *;
      [done|by apply unwound_inv].
  - rewrite process_message_run.
    pose proof (chain_inv _ (session_inv_push (user_msg text) _ Hinv))
      as Hinv'.
    destruct (chain G E (push (user_msg text) (held s))) as [[[]|e] st'];
      cbn [snd held] in *; [done|by apply unwound_inv].
Qed.

Lemma session_loop_inv (evs : list Event) (s : Session) :
  session_inv E st0 (held s) →
  session_inv E st0 (held (session_loop G E evs s)).
Proof.
  revert s. induction evs as [|[text|] evs IH]; intros s Hinv; [done|..].
  - apply IH. by apply submit_inv.
  - apply IH. cbn.
    destruct Hinv as (Hv & Hwf & Hsafe & Hloc & Hcalls).
    split; [done|]. split; [apply map_Forall_empty|done].
Qed.

Lemma session_run_inv (evs : list Event) (s : St) :
  session_inv E st0 s → session_inv E st0 (session_run G E evs s).
Proof. intros Hinv. by apply session_loop_inv. Qed.

End Invariant.

Lemma session_inv_refl (E : Env) (st : St) :
  codes_wf (otp_store (world st)) → provider_safe (chat st) →
  session_inv E st st.
Proof.
  intros Hwf Hsafe. repeat split; try done; [by left|].
  exists []. by rewrite app_nil_r.
Qed.

(** The guard of [provide_info]: the provider is called exactly when the
    flag is set, with the stored location. *)
Lemma provide_info_guard (E : Env) (st : St) :
  provider_log (world (provide_info E st).2)
  = provider_log (world st)
    ++ (if otp_verified (chat st) then [location (chat st)] else []).
Proof.
  rewrite provide_info_run.
  destruct (otp_verified (chat st)); [|by rewrite app_nil_r]. cbn zeta.
  rewrite get_monument_info_run. cbn [fst snd].
  by destruct (generate_content E _ _).
Qed.

(** C7.  Start from any session whose stored codes have six characters
    and which, if verified, has a usable location (a fresh session is
    one).  After any run of the session, every call of the provider made
    during the run was made with a location that is neither unset nor
    empty and in a session whose flag was set; the location field is what
    it was or a non-empty value returned by the extractor. *)
Theorem provider_called_only_when_verified (G : gmap string string)
    (E : Env) (evs : list Event) (st : St) :
  codes_wf (otp_store (world st)) → provider_safe (chat st) →
  let st' := session_run G E evs st in
  (∃ calls,
     provider_log (world st') = provider_log (world st) ++ calls
     ∧ Forall (λ loc, truthy loc = true) calls
     ∧ (calls ≠ [] → otp_verified (chat st) = true
                     ∧ otp_verified (chat st') = true))
  ∧ (location (chat st') = location (chat st)
     ∨ ∃ text, (extract_location E text (world st')).1
               = Return (location (chat st'))
               ∧ truthy (location (chat st')) = true)
  ∧ codes_wf (otp_store (world st')) ∧ provider_safe (chat st').
Proof.
  intros Hwf Hsafe st'.
  destruct (session_run_inv G E st evs st (session_inv_refl E st Hwf Hsafe))
    as (Hv & Hwf' & Hsafe' & Hloc & calls & Hlog & Hcalls & Hne).
  fold st' in Hv, Hwf', Hsafe', Hloc, Hlog.
  split; [|split; [|by split]].
  - exists calls. split; [done|]. split; [done|].
    intros Hcalled. rewrite Hv. by split; apply Hne.
  - destruct Hloc as [Hloc|(text & Hloc & Htruthy)]; [by left|right].
    exists text. rewrite extract_location_run. cbn [fst].
    split; [|done]. fold (first_gpe E text). by rewrite Hloc.
Qed.

Lemma provider_called_only_when_verified_witness :
  codes_wf (otp_store (world verified_session))
  ∧ provider_safe (chat verified_session)
  ∧ ∃ calls,
      provider_log (world (session_run (module_globals sample_secrets)
                             sample_env [UserLine "hello"] verified_session))
      = provider_log (world verified_session) ++ calls
      ∧ Forall (λ loc, truthy loc = true) calls.
Proof.
  split; [apply map_Forall_empty|]. split; [by intros _|].
  destruct (provider_called_only_when_verified
              (module_globals sample_secrets) sample_env
              [UserLine "hello"] verified_session
              (map_Forall_empty _) (λ _, eq_refl))
    as ((calls & Hlog & Hcalls & _) & _).
  exists calls. split; [exact Hlog|exact Hcalls].
Defined.

(** In that run the provider is called, once, with the stored location. *)
Lemma verified_session_reaches_provider :
  provider_log (world (session_run (module_globals sample_secrets)
                         sample_env [UserLine "hello"] verified_session))
  = [Some "Paris"].
Proof. vm_compute. reflexivity. Qed.

(** A session that starts fresh never reaches the provider: the flag is
    never set, because [verify_user_otp] compares the stored code with
    the reply [request_email] has just appended. *)
Lemma fresh_session_never_verified (G : gmap string string) (E : Env)
    (evs : list Event) (w : World) :
  codes_wf (otp_store w) →
  otp_verified (chat (session_run G E evs (fresh_session w))) = false
  ∧ provider_log (world (session_run G E evs (fresh_session w)))
    = provider_log w.
Proof.
  intros Hwf.
  destruct (session_run_inv G E (fresh_session w) evs (fresh_session w))
    as (Hv & _ & _ & _ & calls & Hlog & _ & Hne).
  { apply session_inv_refl; [done|]. by intros ?. }
  split; [done|]. rewrite Hlog.
  destruct calls as [|c calls]; [by rewrite app_nil_r|].
  by specialize (Hne ltac:(done)).
Qed.

(** ** What the nodes read (C10) *)

Lemma linked_lookup (tr : list (string * St)) (i : nat) (p1 p2 : string * St) :
  linked tr → tr !! i = Some p1 → tr !! S i = Some p2 →
  appended_reply p1.2 p2.2.
Proof.
  revert i. induction tr as [|q1 tr IH]; intros i Hl H1 H2; [done|].
  destruct tr as [|q2 tr]; [done|]. destruct Hl as [Hstep Hl].
  destruct i as [|i]; cbn in H1, H2.
  - by simplify_eq.
  - by apply (IH i).
Qed.

Lemma node_effect_appended (s1 s2 : St) :
  node_effect s1 (Return tt) s2 → appended_reply s1 s2.
Proof.
  intros (b & Hm & Hb). exists b. repeat split; try done.
  unfold node_input. rewrite Hm. apply last_snoc.
Qed.

Section Trace.
Context (G : gmap string string) (E : Env).

Lemma invoke_trace_graph (st : St) :
  invoke_trace (graph G E) st =
  ("greet", st) ::
  match greet_user st with
  | (Return _, s1) =>
      ("extract_location", s1) ::
      match get_location E s1 with
      | (Return _, s2) =>
          ("request_email", s2) ::
          match request_email G E s2 with
          | (Return _, s3) =>
              ("verify_otp", s3) ::
              match verify_user_otp s3 with
              | (Return _, s4) => [("provide_info", s4)]
              | (Raise _, _) => []
              end
          | (Raise _, _) => []
          end
      | (Raise _, _) => []
      end
  | (Raise _, _) => []
  end.
Proof.
  unfold invoke_trace, graph, workflow.
  generalize greet_user (get_location E) (request_email G E)
    verify_user_otp (provide_info E).
  intros h1 h2 h3 h4 h5. cbn.
  destruct (h1 st) as [[[]|e] s1]; [|done].
  destruct (h2 s1) as [[[]|e] s2]; [|done].
  destruct (h3 s2) as [[[]|e] s3]; [|done].
  destruct (h4 s3) as [[[]|e] s4]; [|done].
  by destruct (h5 s4) as [[[]|e] s5].
Qed.

Lemma invoke_trace_linked (st : St) : linked (invoke_trace (graph G E) st).
Proof.
  rewrite invoke_trace_graph.
  pose proof (greet_user_effect st) as H1.
  destruct (greet_user st) as [[[]|e1] s1]; [|done].
  split; [by apply node_effect_appended|].
  pose proof (get_location_effect E s1) as [H2 _].
  destruct (get_location E s1) as [[[]|e2] s2]; [|done].
  split; [by apply node_effect_appended|].
  pose proof (request_email_effect G E s2) as H3.
  destruct (request_email G E s2) as [[[]|e3] s3]; [|done].
  split; [by apply node_effect_appended|].
  pose proof (verify_user_otp_effect s3) as [H4 _].
  destruct (verify_user_otp s3) as [[[]|e4] s4]; [|done].
  split; [by apply node_effect_appended|done].
Qed.

(** *** The nodes after the greeting do not depend on the older messages *)

Lemma last_graft (pre : list Message) (n : nat) (st : St) :
  (n < length (messages (chat st)))%nat →
  last (messages (chat (graft pre n st))) = last (messages (chat st)).
Proof.
  intros Hn. cbn.
  destruct (last (messages (chat st))) as [m|] eqn:Hlast.
  - apply last_Some in Hlast as [l Hl]. rewrite Hl in Hn |- *.
    rewrite length_app in Hn. cbn in Hn.
    rewrite drop_app_le by lia. rewrite app_assoc. apply last_snoc.
  - apply last_None in Hlast. rewrite Hlast in Hn. cbn in Hn. lia.
Qed.

Lemma graft_push (pre : list Message) (n : nat) (m : Message) (st : St) :
  (n ≤ length (messages (chat st)))%nat →
  graft pre n (push m st) = push m (graft pre n st).
Proof.
  intros Hn. unfold graft, push. cbn.
  by rewrite drop_app_le, app_assoc by done.
Qed.

Lemma get_location_graft (pre : list Message) (n : nat) (st : St) :
  (n < length (messages (chat st)))%nat →
  get_location E (graft pre n st)
  = ((get_location E st).1, graft pre n (get_location E st).2).
Proof.
  intros Hn. rewrite !get_location_run, last_graft by done.
  destruct (last (messages (chat st))) as [m|]; [|done]. cbn zeta.
  destruct (truthy _); cbn [fst snd]; f_equal;
    by rewrite graft_push by (cbn; lia).
Qed.

Lemma request_email_graft (pre : list Message) (n : nat) (st : St) :
  (n < length (messages (chat st)))%nat →
  request_email G E (graft pre n st)
  = ((request_email G E st).1, graft pre n (request_email G E st).2).
Proof.
  intros Hn. rewrite !request_email_run, last_graft by done.
  destruct (last (messages (chat st))) as [m|]; [|done].
  destruct (py_in "@" (content m));
    [|cbn [fst snd]; f_equal; by rewrite graft_push by (cbn; lia)].
  cbn zeta. change (world (graft pre n st)) with (world st).
  destruct (send_otp G E (content m) (world st)).1 as [[]|e];
    cbn [fst snd]; f_equal; by rewrite ?graft_push by (cbn; lia).
Qed.

Lemma verify_user_otp_graft (pre : list Message) (n : nat) (st : St) :
  (n < length (messages (chat st)))%nat →
  verify_user_otp (graft pre n st)
  = ((verify_user_otp st).1, graft pre n (verify_user_otp st).2).
Proof.
  intros Hn. rewrite !verify_user_otp_run, last_graft by done.
  destruct (last (messages (chat st))) as [m|]; [|done].
  change (world (graft pre n st)) with (world st).
  change (email (chat (graft pre n st))) with (email (chat st)).
  destruct (bool_decide _); cbn [fst snd]; f_equal;
    by rewrite graft_push by (cbn; lia).
Qed.

Lemma provide_info_graft (pre : list Message) (n : nat) (st : St) :
  (n ≤ length (messages (chat st)))%nat →
  provide_info E (graft pre n st)
  = ((provide_info E st).1, graft pre n (provide_info E st).2).
Proof.
  intros Hn. rewrite !provide_info_run.
  change (otp_verified (chat (graft pre n st))) with (otp_verified (chat st)).
  destruct (otp_verified (chat st));
    [|cbn [fst snd]; f_equal; by rewrite graft_push by (cbn; lia)].
  cbn zeta. change (world (graft pre n st)) with (world st).
  change (location (chat (graft pre n st))) with (location (chat st)).
  destruct (get_monument_info E (location (chat st)) (world st)).1;
    cbn [fst snd]; f_equal; by rewrite ?graft_push by (cbn; lia).
Qed.

Lemma chain_graft (pre : list Message) (n : nat) (st : St) :
  (n ≤ length (messages (chat st)))%nat →
  chain G E (graft pre n st)
  = ((chain G E st).1, graft pre n (chain G E st).2).
Proof.
  intros Hn. unfold chain. unfold mbind, SE_bind.
  rewrite !greet_user_run, <-graft_push by done.
  set (s1 := push (bot_msg greeting) st).
  assert (n < length (messages (chat s1)))%nat as Hn1
    by (cbn; rewrite length_app; cbn; lia).
  clearbody s1.
  rewrite get_location_graft by done.
  pose proof (get_location_effect E s1) as [H2 _].
  destruct (get_location E s1) as [[[]|e2] s2]; cbn [fst snd] in *; [|done].
  destruct H2 as (b2 & Hm2 & _).
  assert (n < length (messages (chat s2)))%nat as Hn2
    by (rewrite Hm2, length_app; lia).
  rewrite request_email_graft by done.
  pose proof (request_email_effect G E s2) as H3.
  destruct (request_email G E s2) as [[[]|e3] s3]; cbn [fst snd] in *; [|done].
  destruct H3 as (b3 & Hm3 & _).
  assert (n < length (messages (chat s3)))%nat as Hn3
    by (rewrite Hm3, length_app; lia).
  rewrite verify_user_otp_graft by done.
  pose proof (verify_user_otp_effect s3) as [H4 _].
  destruct (verify_user_otp s3) as [[[]|e4] s4]; cbn [fst snd] in *; [|done].
  destruct H4 as (b4 & Hm4 & _).
  rewrite provide_info_graft by (rewrite Hm4, length_app; lia).
  by destruct (provide_info E s4) as [[[]|e5] s5].
Qed.

Lemma process_message_any_text (text text' : string) (st : St) :
  process_message G E text' st
  = ((process_message G E text st).1,
     graft (transcript st ++ [user_msg text']) (S (length (transcript st)))
           (process_message G E text st).2).
Proof.
  rewrite !process_message_run. unfold transcript.
  rewrite <-(chain_graft (messages (chat st) ++ [user_msg text'])
               (S (length (messages (chat st))))
               (push (user_msg text) st))
    by (cbn; rewrite length_app; cbn; lia).
  f_equal. unfold graft, push. cbn.
  rewrite drop_ge; [by rewrite app_nil_r|].
  rewrite length_app. cbn. lia.
Qed.

End Trace.

(** C10, as the script has it.  In one invocation on a user line, every
    node that returns has appended one bot message, and the node entered
    next reads that message.  The entry node is the greeting, so its
    successor [get_location] reads the greeting: no node reads the user's
    line, and the outcome of the invocation, the replies, the other
    fields of the session and the world are the same for every user
    line. *)
Theorem nodes_read_previous_reply (G : gmap string string) (E : Env)
    (text : string) (st : St) :
  let st0 := push (user_msg text) st in
  let tr := invoke_trace (graph G E) st0 in
  tr !! 0%nat = Some ("greet", st0)
  ∧ tr !! 1%nat = Some ("extract_location", push (bot_msg greeting) st0)
  ∧ (∀ i n1 s1 n2 s2,
       tr !! i = Some (n1, s1) → tr !! S i = Some (n2, s2) →
       appended_reply s1 s2)
  ∧ (∀ i n s,
       tr !! S i = Some (n, s) →
       ∃ b, node_input s = Some b ∧ role b = bot ∧ b ≠ user_msg text)
  ∧ (∀ text',
       process_message G E text' st
       = ((process_message G E text st).1,
          graft (transcript st ++ [user_msg text'])
                (S (length (transcript st)))
                (process_message G E text st).2)).
Proof.
  intros st0 tr.
  pose proof (invoke_trace_linked G E st0) as Hlinked. fold tr in Hlinked.
  assert (∀ i n1 s1 n2 s2,
            tr !! i = Some (n1, s1) → tr !! S i = Some (n2, s2) →
            appended_reply s1 s2) as Hstep.
  { intros i n1 s1 n2 s2 H1 H2.
    apply (linked_lookup tr i (n1, s1) (n2, s2) Hlinked H1 H2). }
  split; [|split; [|split; [done|split]]].
  - subst tr. by rewrite invoke_trace_graph.
  - subst tr. by rewrite invoke_trace_graph, greet_user_run.
  - intros i n s Hi.
    destruct (tr !! i) as [[n1 s1]|] eqn:Hprev.
    + destruct (Hstep i n1 s1 n s Hprev Hi) as (b & _ & Hb & Hin).
      exists b. repeat split; try done. intros ->. done.
    + apply lookup_ge_None in Hprev. apply lookup_lt_Some in Hi. lia.
  - intros text'. apply process_message_any_text.
Qed.

(** The first message of a fresh session.  The extractor would find
    "Paris" in the user's line, but [get_location], the successor of the
    entry node, is entered with the greeting as last message and reads
    that, and each later node reads the reply of the node before it.  The
    session ends the invocation without a location, and the nodes read
    the very same messages on a line that names no place. *)
Lemma first_successor_reads_greeting :
  first_gpe sample_env "I want to visit Paris" = Some "Paris"
  ∧ (λ p, (p.1, content <$> node_input p.2))
      <$> invoke_trace (graph (module_globals sample_secrets) sample_env)
            (push (user_msg "I want to visit Paris")
                  (fresh_session empty_world))
    = [ ("greet", Some "I want to visit Paris");
        ("extract_location",
         Some "Hello! I'm your historical monument guide. Where are you traveling?");
        ("request_email",
         Some "I couldn't detect a location. Can you mention it explicitly?");
        ("verify_otp", Some "Please enter a valid email address.");
        ("provide_info", Some "Invalid OTP. Try again.") ]
  ∧ location (chat (process_message (module_globals sample_secrets)
                      sample_env "I want to visit Paris"
                      (fresh_session empty_world)).2) = None
  ∧ drop 1 ((λ p, (p.1, content <$> node_input p.2))
      <$> invoke_trace (graph (module_globals sample_secrets) sample_env)
            (push (user_msg "I want to visit Paris")
                  (fresh_session empty_world)))
    = drop 1 ((λ p, (p.1, content <$> node_input p.2))
      <$> invoke_trace (graph (module_globals sample_secrets) sample_env)
            (push (user_msg "nothing to see here")
                  (fresh_session empty_world))).
Proof. repeat split; vm_compute; reflexivity. Qed.

(** * Further properties of the script *)

(** ** The authenticator *)

(** X1.  After [send_otp], whatever its outcome, [verify_otp] accepts for the
    address exactly the new code, and answers for every other key what it
    answered before. *)
Theorem send_otp_then_verify (G : gmap string string) (E : Env)
    (email : string) (w : World) :
  let w' := (send_otp G E email w).2 in
  (∀ candidate,
     (verify_otp (Some email) candidate w').1
     = Return (bool_decide (candidate = code_at E (rand_calls w))))
  ∧ (∀ other candidate,
       other ≠ Some email →
       (verify_otp other candidate w').1 = (verify_otp other candidate w).1).
Proof.
  intros w'. subst w'. split.
  - intros candidate. rewrite verify_otp_run. cbn.
    rewrite send_otp_store, lookup_insert_eq. f_equal.
    apply bool_decide_ext. split; congruence.
  - intros [other|] candidate Hne; rewrite !verify_otp_run; cbn; [|done].
    rewrite send_otp_store, lookup_insert_ne; [done|]. congruence.
Qed.

(** X2.  The outcomes of [send_otp], for any binding of the module globals.
    An unbound sender is a [NameError] and a rejected header a
    [ValueError], both raised before any connection is opened.  Otherwise
    the call returns a boolean: the message built from the stored code is
    handed to the server exactly when the connection opens, the password
    is bound and login succeeds, and in no other case is anything handed
    over; the result is [True] when moreover [send_message] and the exit
    of the [with] block raise nothing, [False] in every other case. *)
Theorem send_otp_outcome_table (G : gmap string string) (E : Env)
    (email : string) (w : World) :
  let code := code_at E (rand_calls w) in
  let k := S (rand_calls w) in
  let r := (send_otp G E email w).1 in
  let log' := smtp_log (send_otp G E email w).2 in
  match G !! "EMAIL_ADDRESS" with
  | None => r = Raise (NameError "EMAIL_ADDRESS") ∧ log' = smtp_log w
  | Some sender =>
      if header_accepted E "From" sender && header_accepted E "To" email
      then
        let msg := otp_message code sender email in
        let reached :=
          match smtp_call E k Connect, G !! "EMAIL_PASSWORD" with
          | None, Some password =>
              match smtp_call E k (Login sender password) with
              | None => true
              | Some _ => false
              end
          | _, _ => false
          end in
        log' = smtp_log w ++ (if reached then [msg] else [])
        ∧ r = Return (reached
                      && match smtp_call E k (SendMessage msg),
                               smtp_call E k Quit with
                         | None, None => true
                         | _, _ => false
                         end)
      else r = Raise ValueError ∧ log' = smtp_log w
  end.
Proof.
  intros code k r log'. subst code k r log'.
  rewrite send_otp_eq. cbn zeta.
  destruct (G !! "EMAIL_ADDRESS") as [sender|] eqn:Hs; [|done].
  destruct (header_accepted E "From" sender); cbn [andb]; [|done].
  destruct (header_accepted E "To" email); [|done].
  rewrite try_deliver_run. cbn [fst snd smtp_log rand_calls].
  unfold delivered, handed_over. rewrite Hs.
  destruct (smtp_call E (S (rand_calls w)) Connect); [done|].
  destruct (G !! "EMAIL_PASSWORD") as [password|].
  2: { by destruct (smtp_call E (S (rand_calls w)) Quit). }
  destruct (smtp_call E (S (rand_calls w)) (Login sender password)).
  { by destruct (smtp_call E (S (rand_calls w)) Quit). }
  destruct (smtp_call E (S (rand_calls w)) (SendMessage _));
    by destruct (smtp_call E (S (rand_calls w)) Quit).
Qed.

Lemma code_at_ok (E : Env) (k : nat) : code_ok (code_at E k).
Proof.
  pose proof (randbelow_range E k 900000 ltac:(lia)).
  split; [apply str_code_length|apply str_code_numeric]; lia.
Qed.

(** X3.  A sequence of sends never removes an entry: the keys afterwards are
    the keys before and the addresses sent to. *)
Theorem send_all_keys (G : gmap string string) (E : Env)
    (emails : list string) (w : World) :
  dom (otp_store (send_all G E emails w))
  = dom (otp_store w) ∪ list_to_set emails.
Proof.
  revert w. induction emails as [|e emails IH]; intros w; cbn.
  - symmetry. apply (right_id_L ∅ (∪)).
  - rewrite IH, send_otp_store, dom_insert_L.
    rewrite (comm_L (∪) {[e]} (dom (otp_store w))).
    symmetry. apply (assoc_L (∪)).
Qed.

(** X4.  If every stored code is a six-digit numeric string, this is still so
    after any sequence of sends. *)
Theorem send_all_codes_ok (G : gmap string string) (E : Env)
    (emails : list string) (w : World) :
  map_Forall (λ _ code, code_ok code) (otp_store w) →
  map_Forall (λ _ code, code_ok code) (otp_store (send_all G E emails w)).
Proof.
  revert w. induction emails as [|e emails IH]; intros w Hok; cbn; [done|].
  apply IH. rewrite send_otp_store.
  apply map_Forall_insert_2; [apply code_at_ok|done].
Qed.

Lemma send_all_codes_ok_witness :
  map_Forall (λ _ code, code_ok code) (otp_store empty_world)
  ∧ map_Forall (λ _ code, code_ok code)
      (otp_store (send_all (module_globals sample_secrets) sample_env
                    ["a@b.com"; "c@d.org"; "a@b.com"] empty_world)).
Proof.
  split; [apply map_Forall_empty|].
  apply (send_all_codes_ok (module_globals sample_secrets) sample_env
           ["a@b.com"; "c@d.org"; "a@b.com"] empty_world).
  apply map_Forall_empty.
Defined.

(** ** The nodes, one by one *)

Lemma send_otp_raises_NameError_run (s : Secrets) (E : Env)
    (email : string) (w : World) :
  send_otp (module_globals s) E email w
  = (Raise (NameError "EMAIL_ADDRESS"),
     {| otp_store := <[email := code_at E (rand_calls w)]> (otp_store w);
        rand_calls := S (rand_calls w);
        smtp_log := smtp_log w;
        provider_log := provider_log w |}).
Proof.
  destruct (send_otp_run (module_globals s) E email w)
    as (r & l & -> & _ & Hname).
  destruct (Hname (module_globals_no_EMAIL_ADDRESS s)) as [-> ->]. done.
Qed.

(** X5.  [get_location] on its own.  With no message to read it raises
    [IndexError] and changes nothing.  Otherwise it returns and appends
    one reply; the location is overwritten only by a non-empty place name
    (an extractor answer of [None] or of the empty string leaves it
    alone), and the address, the flag and the world are untouched. *)
Theorem get_location_contract (E : Env) (st : St) :
  match last (messages (chat st)) with
  | None => get_location E st = (Raise IndexError, st)
  | Some m =>
      ∃ st', get_location E st = (Return tt, st')
        ∧ messages (chat st')
          = messages (chat st) ++ [location_reply E (content m)]
        ∧ location (chat st')
          = match first_gpe E (content m) with
            | Some EmptyString | None => location (chat st)
            | Some loc => Some loc
            end
        ∧ email (chat st') = email (chat st)
        ∧ otp_verified (chat st') = otp_verified (chat st)
        ∧ world st' = world st
  end.
Proof.
  rewrite get_location_run.
  destruct (last (messages (chat st))) as [m|]; [|done].
  unfold location_reply. cbn zeta.
  destruct (first_gpe E (content m)) as [[|c loc]|]; cbn;
    by eexists.
Qed.

(** X6.  [request_email] in the module as loaded never opens an SMTP session
    and has one reply only, the request for a valid address.  On a
    message with an "@" it raises the [NameError] of [send_otp] without
    replying, after it has assigned the address and after the code has
    been stored under it. *)
Theorem request_email_as_loaded (s : Secrets) (E : Env) (st : St) :
  let r := request_email (module_globals s) E st in
  smtp_log (world r.2) = smtp_log (world st)
  ∧ match last (messages (chat st)) with
    | None => r = (Raise IndexError, st)
    | Some m =>
        if py_in "@" (content m) then
          r.1 = Raise (NameError "EMAIL_ADDRESS")
          ∧ messages (chat r.2) = messages (chat st)
          ∧ email (chat r.2) = Some (content m)
          ∧ otp_store (world r.2)
            = <[content m := code_at E (rand_calls (world st))]>
                (otp_store (world st))
        else
          r = (Return tt,
               push (bot_msg "Please enter a valid email address.") st)
    end.
Proof.
  intros r. subst r. rewrite request_email_run.
  destruct (last (messages (chat st))) as [m|]; [|done].
  destruct (py_in "@" (content m)); [|done]. cbn zeta.
  rewrite send_otp_raises_NameError_run. done.
Qed.

(** X7.  [verify_user_otp] on its own.  With no message to read it raises
    [IndexError] and changes nothing.  Otherwise it returns, appends one
    reply and leaves the address, the location and the world (the stored
    code included) as they were.  It sets the flag and confirms exactly
    when a code is stored under the session's address and equals the
    message read; with no address yet, no stored code, or another code,
    it answers that the OTP is invalid and leaves the flag alone. *)
Theorem verify_user_otp_contract (st : St) :
  match last (messages (chat st)) with
  | None => verify_user_otp st = (Raise IndexError, st)
  | Some m =>
      ∃ st' reply, verify_user_otp st = (Return tt, st')
        ∧ messages (chat st') = messages (chat st) ++ [bot_msg reply]
        ∧ email (chat st') = email (chat st)
        ∧ location (chat st') = location (chat st)
        ∧ world st' = world st
        ∧ match email (chat st) ≫= (λ addr, otp_store (world st) !! addr) with
          | Some code =>
              if decide (code = content m)
              then otp_verified (chat st') = true
                   ∧ reply = "OTP verified successfully! Fetching historical information..."
              else otp_verified (chat st') = otp_verified (chat st)
                   ∧ reply = "Invalid OTP. Try again."
          | None =>
              otp_verified (chat st') = otp_verified (chat st)
              ∧ reply = "Invalid OTP. Try again."
          end
  end.
Proof.
  rewrite verify_user_otp_run.
  destruct (last (messages (chat st))) as [m|]; [|done].
  unfold dict_get.
  destruct (email (chat st) ≫= _) as [code|] eqn:Hget.
  - destruct (decide (code = content m)) as [->|Hne].
    + rewrite bool_decide_eq_true_2 by done. by eexists _, _.
    + rewrite bool_decide_eq_false_2 by congruence. by eexists _, _.
  - rewrite bool_decide_eq_false_2 by done. by eexists _, _.
Qed.

(** X8.  [provide_info] on its own.  Unverified, it replies that it cannot
    proceed and calls nothing.  Verified, it calls the provider once with
    the stored location, whatever that is; the reply is the backend's
    text as it comes, and a backend exception leaves the node uncaught,
    with the call recorded and no reply appended. *)
Theorem provide_info_contract (E : Env) (st : St) :
  let r := provide_info E st in
  email (chat r.2) = email (chat st)
  ∧ location (chat r.2) = location (chat st)
  ∧ otp_verified (chat r.2) = otp_verified (chat st)
  ∧ otp_store (world r.2) = otp_store (world st)
  ∧ smtp_log (world r.2) = smtp_log (world st)
  ∧ if otp_verified (chat st) then
      provider_log (world r.2)
      = provider_log (world st) ++ [location (chat st)]
      ∧ match generate_content E (length (provider_log (world st)))
                ("Tell me about the top historical monuments in "
                 +:+ format (location (chat st))
                 +:+ " with their significance.") with
        | Return text =>
            r.1 = Return tt
            ∧ messages (chat r.2) = messages (chat st) ++ [bot_msg text]
        | Raise e =>
            r.1 = Raise e ∧ messages (chat r.2) = messages (chat st)
        end
    else
      r = (Return tt, push (bot_msg "OTP not verified. Cannot proceed.") st).
Proof.
  intros r. subst r. rewrite provide_info_run.
  destruct (otp_verified (chat st)) eqn:Hv; [|done]. cbn zeta.
  rewrite get_monument_info_run. cbn [fst snd].
  by destruct (generate_content E _ _).
Qed.

(** ** One invocation and whole sessions *)

Lemma kept_refl (st : St) : kept st st.
Proof. by repeat split. Qed.

Lemma kept_trans (s1 s2 s3 : St) : kept s1 s2 → kept s2 s3 → kept s1 s3.
Proof.
  intros (Hm & Hv & He & Hl) (Hm' & Hv' & He' & Hl').
  split; [by etrans|]. repeat split; auto.
Qed.

Lemma kept_push (m : Message) (st : St) : kept st (push m st).
Proof. split; [by apply prefix_app_r|done]. Qed.

Section Kept.
Context (G : gmap string string) (E : Env).

Lemma get_location_kept (st : St) : kept st (get_location E st).2.
Proof.
  rewrite get_location_run.
  destruct (last (messages (chat st))) as [m|]; [|apply kept_refl].
  cbn zeta. destruct (truthy (first_gpe E (content m))) eqn:Ht;
    [|apply kept_push].
  split; [by apply prefix_app_r|done].
Qed.

Lemma request_email_kept (st : St) : kept st (request_email G E st).2.
Proof.
  rewrite request_email_run.
  destruct (last (messages (chat st))) as [m|]; [|apply kept_refl].
  destruct (py_in "@" (content m)); [|apply kept_push]. cbn zeta.
  destruct (send_otp G E (content m) (world st)).1 as [[]|e]; cbn [snd];
    (split; [try apply prefix_app_r; done|by repeat split]).
Qed.

Lemma verify_user_otp_kept (st : St) : kept st (verify_user_otp st).2.
Proof.
  rewrite verify_user_otp_run.
  destruct (last (messages (chat st))) as [m|]; [|apply kept_refl].
  destruct (bool_decide _); [|apply kept_push].
  split; [by apply prefix_app_r|done].
Qed.

Lemma provide_info_kept (st : St) : kept st (provide_info E st).2.
Proof.
  rewrite provide_info_run.
  destruct (otp_verified (chat st)); [|apply kept_push]. cbn zeta.
  destruct (get_monument_info E _ _).1; cbn [snd];
    (split; [try apply prefix_app_r; done|done]).
Qed.

Lemma chain_kept (st : St) : kept st (chain G E st).2.
Proof.
  unfold chain. unfold mbind, SE_bind. rewrite greet_user_run.
  eapply kept_trans; [apply (kept_push (bot_msg greeting))|].
  set (s1 := push (bot_msg greeting) st). clearbody s1.
  pose proof (get_location_kept s1) as H2.
  destruct (get_location E s1) as [[[]|e2] s2]; [|done]. cbn [snd] in H2.
  eapply kept_trans; [exact H2|].
  pose proof (request_email_kept s2) as H3.
  destruct (request_email G E s2) as [[[]|e3] s3]; [|done]. cbn [snd] in H3.
  eapply kept_trans; [exact H3|].
  pose proof (verify_user_otp_kept s3) as H4.
  destruct (verify_user_otp s3) as [[[]|e4] s4]; [|done]. cbn [snd] in H4.
  eapply kept_trans; [exact H4|].
  pose proof (provide_info_kept s4) as H5.
  by destruct (provide_info E s4) as [[[]|e5] s5].
Qed.

Lemma unwound_kept (st st' : St) : kept st st' → kept st (unwound st st').
Proof. intros (Hm & _). by repeat split. Qed.

Lemma submit_kept (text : string) (s : Session) :
  kept (held s) (held (submit G E text s).2).
Proof.
  unfold submit. destruct (attr s) as [l|].
  - rewrite invoke_graph. pose proof (chain_kept (held s)) as Hk.
    destruct (chain G E (held s)) as [[[]|e] st']; cbn [snd held] in *;
      [done|by apply unwound_kept].
  - rewrite process_message_run.
    assert (kept (held s) (chain G E (push (user_msg text) (held s))).2)
      as Hk.
    { eapply kept_trans; [apply (kept_push (user_msg text))|apply chain_kept]. }
    destruct (chain G E (push (user_msg text) (held s))) as [[[]|e] st'];
      cbn [snd held] in *; [done|by apply unwound_kept].
Qed.

Lemma session_loop_kept (evs : list Event) (s : Session) :
  kept (held s) (held (session_loop G E evs s)).
Proof.
  revert s. induction evs as [|[text|] evs IH]; intros s.
  - apply kept_refl.
  - eapply kept_trans; [|apply IH]. apply submit_kept.
  - eapply kept_trans; [|apply IH]. exact (kept_refl (held s)).
Qed.

End Kept.


(** X9.  Nothing is ever taken back.  Over any run of a session, script
    re-executions and failed invocations included, the earlier message
    list stays as a prefix of the stored message list, a set flag stays
    set, an address once assigned stays assigned, and a usable location
    stays usable. *)
Theorem session_run_keeps (G : gmap string string) (E : Env)
    (evs : list Event) (st : St) :
  kept st (session_run G E evs st).
Proof. exact (session_loop_kept G E evs (instance st)). Qed.

Section Pushed.
Context (G : gmap string string) (E : Env).

Lemma world_location_step (m : Message) (st : St) :
  world (if truthy (first_gpe E (content m))
         then with_location (first_gpe E (content m)) (push m st)
         else push m st) = world st.
Proof. by destruct (truthy _). Qed.

Lemma get_location_world (st : St) : world (get_location E st).2 = world st.
Proof.
  rewrite get_location_run.
  destruct (last (messages (chat st))) as [m|]; [|done]. cbn zeta.
  by destruct (truthy _).
Qed.

Lemma verify_user_otp_world (st : St) :
  world (verify_user_otp st).2 = world st.
Proof.
  rewrite verify_user_otp_run.
  destruct (last (messages (chat st))) as [m|]; [|done].
  by destruct (bool_decide _).
Qed.

Lemma request_email_world (st : St) :
  world (request_email G E st).2 = world st
  ∨ ∃ addr, world (request_email G E st).2
            = (send_otp G E addr (world st)).2.
Proof.
  rewrite request_email_run.
  destruct (last (messages (chat st))) as [m|]; [|by left].
  destruct (py_in "@" (content m)); [|by left]. cbn zeta.
  right. exists (content m).
  by destruct (send_otp G E (content m) (world st)).1 as [[]|e].
Qed.

Lemma provide_info_world (st : St) :
  world (provide_info E st).2 = world st
  ∨ ∃ loc, world (provide_info E st).2
           = (get_monument_info E loc (world st)).2.
Proof.
  rewrite provide_info_run.
  destruct (otp_verified (chat st)); [|by left]. cbn zeta.
  right. exists (location (chat st)).
  by destruct (get_monument_info E (location (chat st)) (world st)).1.
Qed.

(** The world after one invocation: at most one send, then at most one
    provider call. *)
Lemma chain_world (st : St) :
  ∃ w1,
    (w1 = world st ∨ ∃ addr, w1 = (send_otp G E addr (world st)).2)
    ∧ (world (chain G E st).2 = w1
       ∨ ∃ loc, world (chain G E st).2 = (get_monument_info E loc w1).2).
Proof.
  unfold chain. unfold mbind, SE_bind. rewrite greet_user_run.
  set (s1 := push (bot_msg greeting) st).
  assert (world s1 = world st) as Hw1 by done. clearbody s1.
  pose proof (get_location_world s1) as Hw2.
  destruct (get_location E s1) as [[[]|e2] s2]; cbn [snd] in Hw2.
  2: { exists (world st). split; [by left|left; cbn; congruence]. }
  pose proof (request_email_world s2) as Hw3.
  rewrite Hw2, Hw1 in Hw3.
  destruct (request_email G E s2) as [[[]|e3] s3]; cbn [snd] in Hw3.
  2: { exists (world s3). split; [|by left].
       destruct Hw3 as [->|Hw3]; [by left|by right]. }
  pose proof (verify_user_otp_world s3) as Hw4.
  destruct (verify_user_otp s3) as [[[]|e4] s4]; cbn [snd] in Hw4.
  2: { exists (world s3). split; [|left; cbn; congruence].
       destruct Hw3 as [->|Hw3]; [by left|by right]. }
  pose proof (provide_info_world s4) as Hw5. rewrite Hw4 in Hw5.
  exists (world s3). split.
  { destruct Hw3 as [->|Hw3]; [by left|by right]. }
  by destruct (provide_info E s4) as [[[]|e5] s5].
Qed.

End Pushed.

(** X10.  One processed message draws at most one code, hands at most one
    message to the SMTP server and calls the provider at most once; apart
    from the one entry a send writes, the store is left as it was. *)
Theorem process_message_calls (G : gmap string string) (E : Env)
    (text : string) (st : St) :
  let w := world st in
  let w' := world (process_message G E text st).2 in
  (rand_calls w' = rand_calls w ∧ otp_store w' = otp_store w
   ∧ smtp_log w' = smtp_log w
   ∨ ∃ addr,
       rand_calls w' = S (rand_calls w)
       ∧ otp_store w' = <[addr := code_at E (rand_calls w)]> (otp_store w)
       ∧ (smtp_log w' = smtp_log w
          ∨ ∃ msg, smtp_log w' = smtp_log w ++ [msg]))
  ∧ (provider_log w' = provider_log w
     ∨ ∃ loc, provider_log w' = provider_log w ++ [loc]).
Proof.
  intros w w'. subst w w'. rewrite process_message_run.
  destruct (chain_world G E (push (user_msg text) st))
    as (w1 & Hsend & Hcall).
  change (world (push (user_msg text) st)) with (world st) in Hsend.
  assert (rand_calls (world (chain G E (push (user_msg text) st)).2)
          = rand_calls w1
          ∧ otp_store (world (chain G E (push (user_msg text) st)).2)
            = otp_store w1
          ∧ smtp_log (world (chain G E (push (user_msg text) st)).2)
            = smtp_log w1
          ∧ (provider_log (world (chain G E (push (user_msg text) st)).2)
             = provider_log w1
             ∨ ∃ loc,
                 provider_log (world (chain G E (push (user_msg text) st)).2)
                 = provider_log w1 ++ [loc])) as (Hr & Hs & Hl & Hp).
  { destruct Hcall as [->|(loc & ->)]; [by repeat split; try left|].
    rewrite get_monument_info_run. cbn. repeat split; try done.
    right. by exists loc. }
  rewrite Hr, Hs, Hl. destruct Hsend as [->|(addr & ->)].
  - split; [by left|done].
  - destruct (send_otp_run G E addr (world st)) as (r & l & Heq & Hlog & _).
    rewrite Heq in Hp |- *. cbn [snd] in *. split; [|done].
    right. exists addr. by repeat split.
Qed.

Section Invocation.
Context (G : gmap string string) (E : Env).

Lemma send_otp_raise_kinds (email : string) (w : World) (e : exn) :
  (send_otp G E email w).1 = Raise e →
  e = NameError "EMAIL_ADDRESS" ∨ e = ValueError.
Proof.
  rewrite send_otp_eq. cbn zeta.
  destruct (G !! "EMAIL_ADDRESS") as [sender|]; cbn; [|intros [= <-]; by left].
  destruct (header_accepted E "From" sender); cbn;
    [|intros [= <-]; by right].
  destruct (header_accepted E "To" email); cbn; [|intros [= <-]; by right].
  by rewrite try_deliver_run.
Qed.

(** The invocation, node by node, when the place found in the greeting
    carries no "@" and the session is not verified. *)
Lemma chain_stock (st : St) :
  otp_verified (chat st) = false →
  codes_wf (otp_store (world st)) →
  py_in "@" (format (first_gpe E greeting)) = false →
  chain G E st
  = (Return tt,
     push (bot_msg "OTP not verified. Cannot proceed.")
       (push (bot_msg "Invalid OTP. Try again.")
          (push (bot_msg "Please enter a valid email address.")
             (push (location_reply E greeting)
                (if truthy (first_gpe E greeting)
                 then with_location (first_gpe E greeting)
                        (push (bot_msg greeting) st)
                 else push (bot_msg greeting) st))))).
Proof.
  intros Hv Hwf Hat. unfold chain. unfold mbind, SE_bind.
  rewrite greet_user_run, get_location_push.
  change (content (bot_msg greeting)) with greeting.
  set (s1 := if truthy (first_gpe E greeting) then _ else _).
  assert (world s1 = world st ∧ otp_verified (chat s1) = false) as [Hw1 Hv1].
  { subst s1. by destruct (truthy _). }
  clearbody s1.
  rewrite request_email_run, last_push, location_reply_at, Hat, andb_false_r.
  rewrite verify_user_otp_run, last_push.
  rewrite bool_decide_eq_false_2.
  2: { apply codes_wf_lookup; [|done]. cbn. by rewrite Hw1. }
  rewrite provide_info_run. cbn [push chat otp_verified]. by rewrite Hv1.
Qed.

(** Why an invocation can raise. *)
Lemma chain_raise (st : St) (e : exn) :
  (chain G E st).1 = Raise e →
  (truthy (first_gpe E greeting) = true
   ∧ py_in "@" (format (first_gpe E greeting)) = true
   ∧ (e = NameError "EMAIL_ADDRESS" ∨ e = ValueError))
  ∨ (otp_verified (chat (chain G E st).2) = true
     ∧ ∃ k prompt, generate_content E k prompt = Raise e).
Proof.
  unfold chain. unfold mbind, SE_bind.
  rewrite greet_user_run, get_location_push.
  change (content (bot_msg greeting)) with greeting.
  set (s1 := if truthy (first_gpe E greeting) then _ else _). clearbody s1.
  rewrite request_email_run, last_push, location_reply_at.
  destruct (truthy (first_gpe E greeting)) eqn:Ht;
    destruct (py_in "@" (format (first_gpe E greeting))) eqn:Hat;
    cbn [andb].
  1: { cbn zeta.
       destruct (send_otp G E _ (world (push _ s1))).1 as [[]|e'] eqn:Hsend.
       3: { intros [= <-]. left. repeat split; try done.
            by apply (send_otp_raise_kinds _ _ _ Hsend). }
       all: rewrite verify_user_otp_run, last_push;
         destruct (bool_decide _); rewrite provide_info_run;
         (destruct (otp_verified _) eqn:Hv; [|done]); cbn zeta;
         rewrite get_monument_info_run; cbn [fst snd];
         (destruct (generate_content E _ _) eqn:Hgen; [done|]);
         intros [= <-]; right; (split; [done|by eexists _, _]). }
  all: rewrite verify_user_otp_run, last_push;
    destruct (bool_decide _); rewrite provide_info_run;
    (destruct (otp_verified _) eqn:Hv; [|done]); cbn zeta;
    rewrite get_monument_info_run; cbn [fst snd];
    (destruct (generate_content E _ _) eqn:Hgen; [done|]);
    intros [= <-]; right; (split; [done|by eexists _, _]).
Qed.

End Invocation.

(** X11.  The only exceptions that leave [graph.invoke]: the [NameError] or
    [ValueError] of [send_otp], and only when the place found in the
    greeting carries an "@"; or the backend's own exception, in a
    verified session.  Reading [state.messages[-1]] never fails inside an
    invocation, the greeting being appended first. *)
Theorem process_message_exceptions (G : gmap string string) (E : Env)
    (text : string) (st : St) (e : exn) :
  (process_message G E text st).1 = Raise e →
  (truthy (first_gpe E greeting) = true
   ∧ py_in "@" (format (first_gpe E greeting)) = true
   ∧ (e = NameError "EMAIL_ADDRESS" ∨ e = ValueError))
  ∨ (otp_verified (chat (process_message G E text st).2) = true
     ∧ ∃ k prompt, generate_content E k prompt = Raise e).
Proof. rewrite process_message_run. apply chain_raise. Qed.

Lemma process_message_exceptions_witness :
  (process_message (module_globals sample_secrets) failing_backend_env
     "hello" verified_session).1 = Raise (ServiceError "backend")
  ∧ otp_verified (chat (process_message (module_globals sample_secrets)
                          failing_backend_env "hello" verified_session).2)
    = true.
Proof.
  split; [vm_compute; reflexivity|].
  destruct (process_message_exceptions (module_globals sample_secrets)
              failing_backend_env "hello" verified_session
              (ServiceError "backend") ltac:(vm_compute; reflexivity))
    as [(_ & _ & [Hname|Hvalue])|[Hv _]]; [discriminate..|exact Hv].
Defined.

(** One submitted line in a session that is not verified and whose
    extractor finds no "@" in the greeting: the invocation returns, the
    stored list gains the five stock replies, after the user's message if
    the session object was the instance. *)
Lemma submit_stock (G : gmap string string) (E : Env)
    (text : string) (s : Session) :
  otp_verified (chat (held s)) = false →
  codes_wf (otp_store (world (held s))) →
  py_in "@" (format (first_gpe E greeting)) = false →
  ∃ st1,
    submit G E text s = (Return tt, {| held := st1; attr := Some [] |})
    ∧ otp_verified (chat st1) = false
    ∧ world st1 = world (held s)
    ∧ email (chat st1) = email (chat (held s))
    ∧ transcript st1
      = transcript (held s)
        ++ match attr s with
           | None => [user_msg text]
           | Some _ => []
           end
        ++ stock_replies E.
Proof.
  intros Hv Hwf Hat. unfold submit. destruct (attr s) as [l|].
  - rewrite invoke_graph, chain_stock by done.
    eexists. split; [reflexivity|].
    unfold transcript, stock_replies.
    destruct (truthy (first_gpe E greeting)); cbn;
      rewrite <-!app_assoc; by repeat split.
  - rewrite process_message_run, chain_stock by done.
    eexists. split; [reflexivity|].
    unfold transcript, stock_replies.
    destruct (truthy (first_gpe E greeting)); cbn;
      rewrite <-!app_assoc; by repeat split.
Qed.

Lemma session_loop_stock (G : gmap string string) (E : Env)
    (evs : list Event) (s : Session) :
  otp_verified (chat (held s)) = false →
  codes_wf (otp_store (world (held s))) →
  py_in "@" (format (first_gpe E greeting)) = false →
  let s' := session_loop G E evs s in
  session_loop_completes G E evs s = true
  ∧ transcript (held s')
    = transcript (held s)
      ++ match attr s with
         | None => user_msg <$> take 1 (user_lines evs)
         | Some _ => []
         end
      ++ concat (replicate (length (user_lines evs)) (stock_replies E))
  ∧ otp_verified (chat (held s')) = false
  ∧ email (chat (held s')) = email (chat (held s))
  ∧ rand_calls (world (held s')) = rand_calls (world (held s))
  ∧ smtp_log (world (held s')) = smtp_log (world (held s))
  ∧ provider_log (world (held s')) = provider_log (world (held s)).
Proof.
  intros Hv Hwf Hat. cbn zeta. revert s Hv Hwf.
  induction evs as [|[text|] evs IH]; intros s Hv Hwf.
  - cbn. destruct (attr s); by rewrite !app_nil_r.
  - rewrite session_loop_completes_cons, session_loop_cons.
    change (session_step G E (UserLine text) s) with (submit G E text s).
    destruct (submit_stock G E text s Hv Hwf Hat)
      as (st1 & -> & Hv1 & Hw1 & He1 & Ht1).
    cbn [fst snd returned andb].
    destruct (IH {| held := st1; attr := Some [] |} Hv1)
      as (Hc & Ht & Hv' & He' & Hr & Hs & Hp); [cbn; by rewrite Hw1|].
    cbn [held attr] in *.
    rewrite Hc, Ht, Ht1, Hv', He', Hr, Hs, Hp, Hw1, He1.
    repeat split; try done.
    change (user_lines (UserLine text :: evs)) with (text :: user_lines evs).
    cbn [length replicate concat take fmap list_fmap app].
    rewrite <-!app_assoc. by destruct (attr s).
  - rewrite session_loop_completes_cons, session_loop_cons.
    destruct (IH (session_step G E ScriptReload s).2 Hv)
      as (Hc & Ht & Hv' & He' & Hr & Hs & Hp);
      [apply map_Forall_empty|].
    by repeat split.
Qed.

(** X12.  A session that is not verified and whose extractor finds no "@" in
    the greeting answers every user line with the same five messages,
    whatever the line says: every invocation completes, the flag stays
    unset, and no code is drawn, no mail sent and no provider call made.
    The stored message list is the earlier list, the first user line, and
    those five messages once per line: the later user lines do not reach
    it. *)
Theorem unverified_session_transcript (G : gmap string string) (E : Env)
    (evs : list Event) (st : St) :
  otp_verified (chat st) = false →
  codes_wf (otp_store (world st)) →
  py_in "@" (format (first_gpe E greeting)) = false →
  let st' := session_run G E evs st in
  session_completes G E evs st = true
  ∧ transcript st'
    = transcript st
      ++ (user_msg <$> take 1 (user_lines evs))
      ++ concat (replicate (length (user_lines evs)) (stock_replies E))
  ∧ otp_verified (chat st') = false
  ∧ email (chat st') = email (chat st)
  ∧ rand_calls (world st') = rand_calls (world st)
  ∧ smtp_log (world st') = smtp_log (world st)
  ∧ provider_log (world st') = provider_log (world st).
Proof.
  intros Hv Hwf Hat.
  exact (session_loop_stock G E evs (instance st) Hv Hwf Hat).
Qed.

Lemma unverified_session_transcript_witness :
  otp_verified (chat (fresh_session empty_world)) = false
  ∧ codes_wf (otp_store (world (fresh_session empty_world)))
  ∧ py_in "@" (format (first_gpe sample_env greeting)) = false
  ∧ transcript (session_run (module_globals sample_secrets) sample_env
                  [UserLine "I want to visit Paris"; ScriptReload;
                   UserLine "a@b.com"]
                  (fresh_session empty_world))
    = transcript (fresh_session empty_world)
      ++ (user_msg <$> take 1 ["I want to visit Paris"; "a@b.com"])
      ++ concat (replicate 2 (stock_replies sample_env)).
Proof.
  split; [reflexivity|]. split; [apply map_Forall_empty|].
  split; [vm_compute; reflexivity|].
  apply (unverified_session_transcript (module_globals sample_secrets)
           sample_env
           [UserLine "I want to visit Paris"; ScriptReload; UserLine "a@b.com"]
           (fresh_session empty_world) eq_refl (map_Forall_empty _)).
  vm_compute; reflexivity.
Defined.

(** ** Display loop and script executions *)



(** X14.  An execution with an empty text box processes nothing: it displays
    the list [.messages] of the session object as it stands, which is
    the message list while the object is the instance (an empty one if
    there was no session) and the attribute of a stored dict otherwise;
    a second such execution displays the same lines and leaves the same
    state behind. *)
Theorem script_run_empty_input (G : gmap string string) (E : Env) (h : Host) :
  let c := default new_chat (session_state h) in
  (script_run G E "" h).1
  = Return (render_message <$> default (messages c) (session_attr h))
  ∧ session_state (script_run G E "" h).2 = Some c
  ∧ session_attr (script_run G E "" h).2 = session_attr h
  ∧ script_run G E "" (script_run G E "" h).2 = script_run G E "" h.
Proof. by destruct h as [[c|] [l|] w]. Qed.

(** A submitted line whose invocation raises leaves the fields of the
    session object as they were; the user's message stays in the
    attribute of a stored dict. *)
Lemma submit_raise (G : gmap string string) (E : Env)
    (text : string) (s : Session) (e : exn) :
  (submit G E text s).1 = Raise e →
  let s' := (submit G E text s).2 in
  email (chat (held s')) = email (chat (held s))
  ∧ otp_verified (chat (held s')) = otp_verified (chat (held s))
  ∧ location (chat (held s')) = location (chat (held s))
  ∧ attr s' = (λ l, l ++ [user_msg text]) <$> attr s.
Proof.
  unfold submit. destruct (attr s) as [l|].
  - by destruct (invoke (graph G E) (held s)) as [[[]|e'] st'].
  - by destruct (process_message G E text (held s)) as [[[]|e'] st'].
Qed.

(** X15.  An execution with a non-empty line.  When the invocation returns,
    the stored message list has gained exactly five bot messages, after
    the user's message if the session object was the instance; but the
    object stored is the value [graph.invoke] returned, whose attribute
    [messages] line 164 has just set to an empty list, so the display
    loop writes no line, in this execution and in a following one with
    an empty text box.  When the invocation raises nothing is displayed
    either; the session object keeps its fields and the messages
    appended before the exception, two or four of them from the bot. *)
Theorem script_run_line (G : gmap string string) (E : Env)
    (input : string) (h : Host) :
  input ≠ "" →
  let c := default new_chat (session_state h) in
  let h' := (script_run G E input h).2 in
  let c' := default new_chat (session_state h') in
  let said := match session_attr h with
              | None => [user_msg input]
              | Some _ => []
              end in
  match (script_run G E input h).1 with
  | Return lines =>
      lines = []
      ∧ session_attr h' = Some []
      ∧ (script_run G E "" h').1 = Return []
      ∧ ∃ bots, length bots = 5%nat
                ∧ Forall (λ m, role m = bot) bots
                ∧ messages c' = messages c ++ said ++ bots
  | Raise _ =>
      session_attr h' = (λ l, l ++ [user_msg input]) <$> session_attr h
      ∧ email c' = email c
      ∧ otp_verified c' = otp_verified c
      ∧ location c' = location c
      ∧ ∃ bots, (length bots = 2%nat ∨ length bots = 4%nat)
                ∧ Forall (λ m, role m = bot) bots
                ∧ messages c' = messages c ++ said ++ bots
  end.
Proof.
  intros Hne. cbn zeta. unfold script_run.
  apply String.eqb_neq in Hne. rewrite Hne.
  set (c := match session_state h with Some c => c | None => new_chat end).
  replace (default new_chat (session_state h)) with c
    by (subst c; by destruct (session_state h)).
  set (s := {| held := {| chat := c; world := _ |}; attr := session_attr h |}).
  destruct (submit_shape G E input s) as (bots & Hm & Hb & Hn).
  pose proof (submit_raise G E input s) as Hraise.
  unfold transcript in Hm.
  destruct (submit G E input s) as [[[]|e] s']; cbn [fst snd] in *.
  - destruct Hn as (Hlen & _ & Hattr).
    cbn [host_of session_state session_attr host_world default String.eqb].
    unfold attr_messages. rewrite Hattr. cbn [fmap list_fmap].
    repeat split; try done.
    exists (bot_msg greeting :: bots). split; [cbn; lia|].
    split; [by constructor|]. exact Hm.
  - destruct (Hraise e eq_refl) as (He & Hv & Hl & Hattr).
    destruct Hn as [Hlen _].
    cbn [host_of session_state session_attr host_world default].
    repeat split; try done.
    exists (bot_msg greeting :: bots). split.
    { cbn [length]. destruct (email_step_raises G E); lia. }
    split; [by constructor|]. exact Hm.
Qed.

Lemma script_run_line_witness :
  "I want to visit Paris" ≠ ""
  ∧ (script_run (module_globals sample_secrets) sample_env
       "I want to visit Paris" (initial_host empty_world)).1 = Return []
  ∧ length (messages
              (default new_chat
                 (session_state
                    (script_run (module_globals sample_secrets) sample_env
                       "I want to visit Paris" (initial_host empty_world)).2)))
    = 6%nat.
Proof.
  split; [done|].
  pose proof (script_run_line (module_globals sample_secrets) sample_env
                "I want to visit Paris" (initial_host empty_world)
                ltac:(done)) as Hout.
  cbn zeta in Hout.
  destruct (script_run _ _ _ _).1 as [lines|e] eqn:Hr.
  - destruct Hout as (-> & _ & _ & bots & Hlen & _ & ->).
    split; [reflexivity|]. cbn. by rewrite Hlen.
  - vm_compute in Hr. discriminate Hr.
Defined.

Lemma script_run_unverified (G : gmap string string) (E : Env)
    (input : string) (h : Host) :
  from_option otp_verified false (session_state h) = false →
  from_option otp_verified false (session_state (script_run G E input h).2)
  = false
  ∧ provider_log (host_world (script_run G E input h).2)
    = provider_log (host_world h).
Proof.
  intros Hv. unfold script_run.
  set (c := match session_state h with Some c => c | None => new_chat end).
  assert (otp_verified c = false) as Hc
    by (subst c; by destruct (session_state h)).
  clearbody c.
  destruct (String.eqb input ""); [done|].
  set (s := {| held := {| chat := c; world := _ |}; attr := session_attr h |}).
  destruct (submit_inv G E (held s) input s)
    as (Hflag & _ & _ & _ & calls & Hlog & _ & Hne).
  { apply session_inv_refl; [apply map_Forall_empty|].
    intros Htrue. cbn in Htrue. congruence. }
  assert (calls = []) as ->.
  { destruct calls as [|call calls]; [done|].
    specialize (Hne ltac:(done)). cbn in Hne. congruence. }
  rewrite app_nil_r in Hlog.
  destruct (submit G E input s) as [[[]|e] s'];
    cbn [snd host_of session_state host_world from_option held chat world] in *;
    (split; [by rewrite Hflag|done]).
Qed.

(** X16.  Starting with no session, after any sequence of script executions
    the session is still unverified and the provider has never been
    called: [verify_user_otp] is always entered with the reply of
    [request_email] as last message, and no stored code equals one of
    those replies. *)
Theorem script_never_verifies (G : gmap string string) (E : Env)
    (inputs : list string) (w : World) :
  let h := script_runs G E inputs (initial_host w) in
  from_option otp_verified false (session_state h) = false
  ∧ provider_log (host_world h) = provider_log w.
Proof.
  cbn zeta.
  assert (∀ h, from_option otp_verified false (session_state h) = false →
            from_option otp_verified false
              (session_state (script_runs G E inputs h)) = false
            ∧ provider_log (host_world (script_runs G E inputs h))
              = provider_log (host_world h)) as Hgen.
  { induction inputs as [|input inputs IH]; intros h Hv; [done|].
    destruct (script_run_unverified G E input h Hv) as [Hv1 Hp1].
    destruct (IH _ Hv1) as [Hv2 Hp2]. cbn [script_runs].
    by rewrite Hv2, Hp2, Hp1. }
  by apply Hgen.
Qed.

(** X17.  The two OTP nodes fit together when each is entered with a user line
    as last message.  After [request_email] has read an address with an
    "@", whether the send returned or raised, the address is assigned and
    its code stored; [verify_user_otp] entered on a user line then sets
    the flag exactly when the line is that code, and leaves it as it was
    on any other line. *)
Theorem otp_round_trip_through_nodes (G : gmap string string) (E : Env)
    (addr : string) (st : St) :
  py_in "@" addr = true →
  let s1 := (request_email G E (push (user_msg addr) st)).2 in
  let code := code_at E (rand_calls (world st)) in
  email (chat s1) = Some addr
  ∧ otp_store (world s1) !! addr = Some code
  ∧ ∀ line,
      otp_verified (chat (verify_user_otp (push (user_msg line) s1)).2)
      = if decide (line = code) then true else otp_verified (chat st).
Proof.
  intros Hat s1 code. subst s1 code.
  rewrite request_email_run, last_push.
  change (content (user_msg addr)) with addr. rewrite Hat. cbn zeta.
  change (world (push (user_msg addr) st)) with (world st).
  set (s1 := (match (send_otp G E addr (world st)).1 with
              | Return true => _ | Return false => _ | Raise e => _ end).2).
  assert (email (chat s1) = Some addr
          ∧ otp_store (world s1)
            = <[addr := code_at E (rand_calls (world st))]>
                (otp_store (world st))
          ∧ otp_verified (chat s1) = otp_verified (chat st))
    as (He & Hs & Hv).
  { subst s1. pose proof (send_otp_store G E addr (world st)) as Hstore.
    destruct (send_otp G E addr (world st)) as [[[]|e] w1]; by cbn in *. }
  clearbody s1. split; [done|]. split; [by rewrite Hs, lookup_insert_eq|].
  intros line. rewrite verify_user_otp_run, last_push.
  change (world (push (user_msg line) s1)) with (world s1).
  change (email (chat (push (user_msg line) s1))) with (email (chat s1)).
  rewrite He, Hs. cbn [dict_get mbind option_bind content user_msg].
  rewrite lookup_insert_eq.
  destruct (decide (line = code_at E (rand_calls (world st)))) as [->|Hne].
  - by rewrite bool_decide_eq_true_2.
  - rewrite bool_decide_eq_false_2 by congruence. done.
Qed.

Lemma otp_round_trip_through_nodes_witness :
  py_in "@" "a@b.com" = true
  ∧ otp_verified
      (chat (verify_user_otp
               (push (user_msg (code_at sample_env 0))
                  (request_email (module_globals sample_secrets) sample_env
                     (push (user_msg "a@b.com")
                        (fresh_session empty_world))).2)).2)
    = true.
Proof.
  split; [reflexivity|].
  destruct (otp_round_trip_through_nodes (module_globals sample_secrets)
              sample_env "a@b.com" (fresh_session empty_world) eq_refl)
    as (_ & _ & Hflag).
  rewrite (Hflag (code_at sample_env 0)).
  by destruct (decide _).
Defined.
